(** * polymer-workspaces: GitHub connection and Workspace orchestration

    A shallow embedding of [github.ts] (class [GitHubConnection], the pattern
    parser) and [workspace.ts] (class [Workspace]: [_determineGitHubRepos],
    [_initValidate], [init], [run]).

    JavaScript strings are modelled as byte strings ([string]); the external
    collaborators (GitHub REST client, file system, git and bower processes)
    are the fields of a record [Env] over which every definition is
    parametrised.  Promises are modelled by a state-and-exception monad; the
    callbacks handed to [Promise.all] are run one after the other, in array
    order (the points where this matters are marked at the definitions). *)

From Stdlib Require Import String Ascii List Bool Arith Lia.
From stdpp Require Import base option list gmap strings.
Import ListNotations.

(** ** Exceptions *)

Inductive Exn : Type :=
| Error (message : string)
| TypeError (message : string).

Definition message_of (e : Exn) : string :=
  match e with Error m => m | TypeError m => m end.

(** ** JavaScript string primitives *)

Module JS.

(** [s.split(c)] for a one-character separator. *)
Fixpoint split (sep : ascii) (s : string) : list string :=
  match s with
  | EmptyString => [EmptyString]
  | String c s' =>
      if Ascii.eqb c sep then EmptyString :: split sep s'
      else match split sep s' with
           | h :: t => String c h :: t
           | [] => [String c EmptyString]
           end
  end.

(** [s.includes(c)], also [s.match(/c/)] used as a condition. *)
Fixpoint includes (c : ascii) (s : string) : bool :=
  match s with
  | EmptyString => false
  | String a s' => Ascii.eqb a c || includes c s'
  end.

(** [s.indexOf(c)]; [None] stands for -1. *)
Fixpoint indexOf (c : ascii) (s : string) : option nat :=
  match s with
  | EmptyString => None
  | String a s' =>
      if Ascii.eqb a c then Some 0
      else match indexOf c s' with Some i => Some (S i) | None => None end
  end.

Fixpoint take (n : nat) (s : string) : string :=
  match n, s with
  | S n', String c s' => String c (take n' s')
  | _, _ => EmptyString
  end.

Fixpoint drop (n : nat) (s : string) : string :=
  match n, s with
  | S n', String _ s' => drop n' s'
  | _, _ => s
  end.

(** [s.substring(0, s.indexOf(c))]: a negative end index is clamped to 0. *)
Definition substring_to_indexOf (c : ascii) (s : string) : string :=
  match indexOf c s with
  | Some i => take i s
  | None => EmptyString
  end.

(** [s.substring(s.indexOf(c) + 1)]. *)
Definition substring_after_indexOf (c : ascii) (s : string) : string :=
  match indexOf c s with
  | Some i => drop (S i) s
  | None => s
  end.

Definition lower_ascii (c : ascii) : ascii :=
  let n := nat_of_ascii c in
  if ((65 <=? n) && (n <=? 90))%nat then ascii_of_nat (n + 32) else c.

(** [s.toLowerCase()] on the ASCII letters; other bytes are kept.  The
    method of the code lower-cases the other letters of Unicode as well:
    the two agree on the strings made of ASCII characters. *)
Fixpoint toLowerCase (s : string) : string :=
  match s with
  | EmptyString => EmptyString
  | String c s' => String (lower_ascii c) (toLowerCase s')
  end.

(** Word characters of a regular expression: [[A-Za-z0-9_]]. *)
Definition is_word_char (c : ascii) : bool :=
  let n := nat_of_ascii c in
  (((48 <=? n) && (n <=? 57)) || ((65 <=? n) && (n <=? 90))
   || ((97 <=? n) && (n <=? 122)) || (n =? 95))%nat.

(** [s.match(/^301\b/)] used as a condition. *)
Definition match_301 (s : string) : bool :=
  match s with
  | String "3" (String "0" (String "1" rest)) =>
      match rest with
      | EmptyString => true
      | String c _ => negb (is_word_char c)
      end
  | _ => false
  end.

(** [a || b] where [a] is a string, [undefined] or [false]: the empty
    string is falsy as well. *)
Definition or_else (a : option string) (b : string) : string :=
  match a with
  | Some (String c s) => String c s
  | _ => b
  end.

(** [a || undefined]. *)
Definition or_undefined (a : option string) : option string :=
  match a with
  | Some (String c s) => Some (String c s)
  | _ => None
  end.

Definition dquote : string := String (ascii_of_nat 34) EmptyString.

(** [String.prototype.toLowerCase] as a function value: [this] is its
    receiver ([None] when the receiver is [undefined]); the arguments it is
    called with are ignored. *)
Definition String_prototype_toLowerCase {A : Type} (this : option string)
  (argument : A) : Exn + string :=
  match this with
  | Some s => inr (toLowerCase s)
  | None =>
      inl (TypeError
             "String.prototype.toLowerCase called on null or undefined")
  end.

(** [array.map(callback)]: no [thisArg] is given, so the callback is called
    with [this] undefined and the element as its argument. *)
Fixpoint Array_map {A B : Type} (callback : option string -> A -> Exn + B)
  (array : list A) : Exn + list B :=
  match array with
  | [] => inr []
  | x :: rest =>
      match callback None x with
      | inl e => inl e
      | inr y =>
          match Array_map callback rest with
          | inl e => inl e
          | inr ys => inr (y :: ys)
          end
      end
  end.

(** [array.includes(s)] on an array of strings. *)
Definition Array_includes (array : list string) (s : string) : bool :=
  existsb (String.eqb s) array.

End JS.

(** ** Data model of github.ts *)

Record GitHubRepoReference : Type := mkReference {
  ref_owner : string;
  ref_name : string;
  ref_fullName : string;
  ref_ref : option string
}.

Record GitHubRepoCached : Type := mkCached {
  cached_owner : string;
  cached_name : string;
  cached_fullName : string;
  cached_cloneUrl : string;
  cached_defaultBranch : string
}.

Record GitHubRepo : Type := mkRepo {
  repo_owner : string;
  repo_name : string;
  repo_fullName : string;
  repo_cloneUrl : string;
  repo_defaultBranch : string;
  repo_ref : string
}.

(** [fullNameToGithubRepoReference]: the object it returns, or the error
    it throws. *)
Definition fullNameToGithubRepoReference (pattern : string)
  : Exn + GitHubRepoReference :=
  let hashSplit := JS.split "#" pattern in
  let slashSplit := JS.split "/" (hd EmptyString hashSplit) in
  if (negb (length slashSplit =? 2) || (2 <? length hashSplit))%nat then
    inl (Error ("Repo '" +:+ pattern +:+
                "' is not in form user/repo or user/repo#ref"))
  else
    inr {| ref_fullName := hd EmptyString hashSplit;
           ref_owner := hd EmptyString slashSplit;
           ref_name := nth 1 slashSplit EmptyString;
           ref_ref := JS.or_undefined (hashSplit !! 1) |}.

(** The objects of the REST client that the code reads. *)
Record ApiRepo : Type := mkApiRepo {
  api_owner_login : string;
  api_name : string;
  api_full_name : string;
  api_clone_url : string;
  api_default_branch : string;
  api_private : bool
}.

(** A response to [repos.get]: [meta_status] is [response.meta.status] when
    [response.meta] is present. *)
Record ApiResponse : Type := mkResponse {
  meta_status : option string;
  data : ApiRepo
}.

Definition isRedirect (response : ApiResponse) : bool :=
  match meta_status response with
  | Some status => JS.match_301 status
  | None => false
  end.

Definition formatGitHubRepoFromApi (obj : ApiRepo) : GitHubRepoCached :=
  {| cached_owner := api_owner_login obj;
     cached_name := api_name obj;
     cached_fullName := api_full_name obj;
     cached_cloneUrl := api_clone_url obj;
     cached_defaultBranch := api_default_branch obj |}.

(** [Object.assign({}, cached, {ref: r})]. *)
Definition assign_ref (cached : GitHubRepoCached) (r : string) : GitHubRepo :=
  {| repo_owner := cached_owner cached;
     repo_name := cached_name cached;
     repo_fullName := cached_fullName cached;
     repo_cloneUrl := cached_cloneUrl cached;
     repo_defaultBranch := cached_defaultBranch cached;
     repo_ref := r |}.

(** ** Objects with identity

    A [Set] of objects and a [Map] keyed by objects compare by identity, so
    an object created by a literal carries the address it was allocated at. *)

Record Object (A : Type) : Type := mkObject { addr : nat; val : A }.
Arguments mkObject {A} _ _.
Arguments addr {A} _.
Arguments val {A} _.

Definition same_object {A : Type} (x y : Object A) : bool :=
  (addr x =? addr y)%nat.

(** [set.add(x)] on a [Set] kept in insertion order. *)
Definition Set_add {A : Type} (same : A -> A -> bool) (x : A) (s : list A)
  : list A :=
  if existsb (same x) s then s else s ++ [x].

(** [map.set(k, v)] on a [Map] kept in insertion order. *)
Fixpoint Map_set {K V : Type} (same : K -> K -> bool) (k : K) (v : V)
  (m : list (K * V)) : list (K * V) :=
  match m with
  | [] => [(k, v)]
  | (k', v') :: m' =>
      if same k k' then (k', v) :: m' else (k', v') :: Map_set same k v m'
  end.

(** ** Data model of workspace.ts *)

Record GitHubRepoError : Type := mkRepoError {
  error : Exn;
  repoReference : GitHubRepoReference
}.

Record GitRepo : Type := mkGitRepo { cwd : string }.

Record WorkspaceRepo : Type := mkWorkspaceRepo {
  dir : string;
  git : GitRepo;
  github : GitHubRepo
}.

Record WorkspaceInitOptions : Type := mkOptions {
  fresh : bool;
  verbose : bool
}.

Inductive ApiRequest : Type :=
| ReposGet (owner repo : string)
| ReposGetForOrg (org : string) (per_page page : nat)
| ReposGetForUser (username : string) (per_page page : nat).

Inductive LogEntry : Type :=
| LogText (text : string)
| LogResponse (response : ApiResponse)
| LogOwnerRepos (label owner : string) (repos : list GitHubRepoCached).

(** ** External collaborators

    What the code imports and calls but does not define: the [github]
    client, [fs], [path], [rimraf], [util/exec], [util/bower] and the
    [GitRepo] class of [./git].  A call takes the world and gives back what
    it returns or throws, and the world after it. *)

Record Env : Type := mkEnv {
  World : Type;
  repos_get : string -> string -> World -> (Exn + ApiResponse) * World;
  repos_getForOrg : string -> nat -> nat -> World -> (Exn + list ApiRepo) * World;
  repos_getForUser : string -> nat -> nat -> World -> (Exn + list ApiRepo) * World;
  checkCommand : string -> World -> (Exn + bool) * World;
  exec : string -> string -> list string -> World -> (Exn + string * string) * World;
  existsSync : string -> World -> bool;
  mkdirSync : string -> World -> (Exn + unit) * World;
  writeFileSync : string -> string -> World -> (Exn + unit) * World;
  rimraf : string -> World -> (Exn + unit) * World;
  path_resolve : string -> string -> string;
  path_join : string -> string -> string;
  git_isGit : GitRepo -> World -> bool;
  git_fetch : GitRepo -> World -> (Exn + string) * World;
  git_destroyAllUncommittedChangesAndFiles : GitRepo -> World -> (Exn + unit) * World;
  git_clone : GitRepo -> string -> World -> (Exn + string) * World;
  git_checkout : GitRepo -> string -> World -> (Exn + string) * World;
  git_getHeadSha : GitRepo -> World -> (Exn + string) * World;
  BowerConfig : Type;
  mergedBowerConfigsFromRepos : list WorkspaceRepo -> World -> (Exn + BowerConfig) * World;
  set_dependency : BowerConfig -> string -> string -> Exn + BowerConfig;
  JSON_stringify : BowerConfig -> string
}.

(** ** Program state and the promise monad *)

Record State (E : Env) : Type := mkState {
  world : World E;
  _cache : gmap string GitHubRepoCached;
  _initializedRepos : option (list (Object WorkspaceRepo));
  console : list LogEntry;
  requests : list ApiRequest;
  next_addr : nat
}.
Arguments mkState {E} _ _ _ _ _ _.
Arguments world {E} _.
Arguments _cache {E} _.
Arguments _initializedRepos {E} _.
Arguments console {E} _.
Arguments requests {E} _.
Arguments next_addr {E} _.

(** How a call ends: it returns, it throws, or the fuel given to a loop
    ran out before it ended. *)
Inductive Outcome (A : Type) : Type :=
| Returns (a : A)
| Throws (e : Exn)
| OutOfFuel.
Arguments Returns {A} _.
Arguments Throws {A} _.
Arguments OutOfFuel {A}.

Definition M (E : Env) (A : Type) : Type := State E -> Outcome A * State E.

Definition ret {E : Env} {A : Type} (a : A) : M E A :=
  fun st => (Returns a, st).

Definition throw {E : Env} {A : Type} (e : Exn) : M E A :=
  fun st => (Throws e, st).

Definition out_of_fuel {E : Env} {A : Type} : M E A :=
  fun st => (OutOfFuel, st).

Definition bind {E : Env} {A B : Type} (c : M E A) (k : A -> M E B) : M E B :=
  fun st =>
    match c st with
    | (Returns a, st') => k a st'
    | (Throws e, st') => (Throws e, st')
    | (OutOfFuel, st') => (OutOfFuel, st')
    end.

Notation "x <- c ;; k" := (bind c (fun x => k))
  (at level 100, c at next level, right associativity).
Notation "c ;;; k" := (bind c (fun _ => k))
  (at level 100, right associativity).

(** [try { c } catch (e) { h e }]. *)
Definition try_catch {E : Env} {A : Type} (c : M E A) (h : Exn -> M E A)
  : M E A :=
  fun st =>
    match c st with
    | (Throws e, st') => h e st'
    | r => r
    end.

Definition of_sum {E : Env} {A : Type} (r : Exn + A) : M E A :=
  match r with inl e => throw e | inr a => ret a end.

(** A call of a collaborator. *)
Definition call {E : Env} {A : Type}
  (f : World E -> (Exn + A) * World E) : M E A :=
  fun st =>
    let '(r, w) := f (world st) in
    of_sum r (mkState w (_cache st) (_initializedRepos st) (console st)
                (requests st) (next_addr st)).

(** A request to the GitHub API: the request is recorded, then answered. *)
Definition request {E : Env} {A : Type} (q : ApiRequest)
  (f : World E -> (Exn + A) * World E) : M E A :=
  fun st =>
    call f (mkState (world st) (_cache st) (_initializedRepos st) (console st)
              (requests st ++ [q]) (next_addr st)).

Definition console_log {E : Env} (entry : LogEntry) : M E unit :=
  fun st =>
    (Returns tt,
     mkState (world st) (_cache st) (_initializedRepos st)
       (console st ++ [entry]) (requests st) (next_addr st)).

(** An object literal: a new object. *)
Definition new_object {E : Env} {A : Type} (v : A) : M E (Object A) :=
  fun st =>
    (Returns (mkObject (next_addr st) v),
     mkState (world st) (_cache st) (_initializedRepos st) (console st)
       (requests st) (S (next_addr st))).

(** [this._cache.set(key, value)]. *)
Definition cache_set {E : Env} (key : string) (value : GitHubRepoCached)
  : M E unit :=
  fun st =>
    (Returns tt,
     mkState (world st) (<[key := value]> (_cache st)) (_initializedRepos st)
       (console st) (requests st) (next_addr st)).

Definition set_initializedRepos {E : Env} (repos : list (Object WorkspaceRepo))
  : M E unit :=
  fun st =>
    (Returns tt,
     mkState (world st) (_cache st) (Some repos) (console st) (requests st)
       (next_addr st)).

(** [Promise.all(l.map(f))]: every callback is started and none is
    cancelled; the result rejects with the first rejection.  The callbacks
    are taken in array order, each one up to its end.  The state given with
    a rejection is the one in which every callback has ended: the promise
    of the code rejects before that, while the other callbacks are still
    pending.  Of that state the properties below use [_initializedRepos]
    alone, which no callback writes. *)
Fixpoint promise_all {E : Env} {A B : Type} (f : A -> M E B) (l : list A)
  : M E (list B) :=
  match l with
  | [] => ret []
  | x :: xs =>
      fun st =>
        match f x st with
        | (Returns b, st1) =>
            match promise_all f xs st1 with
            | (Returns bs, st2) => (Returns (b :: bs), st2)
            | (Throws e, st2) => (Throws e, st2)
            | (OutOfFuel, st2) => (OutOfFuel, st2)
            end
        | (Throws e, st1) => (Throws e, snd (promise_all f xs st1))
        | (OutOfFuel, st1) => (OutOfFuel, st1)
        end
  end.

(** ** class GitHubConnection *)

Section GitHubConnection.
Context {E : Env}.

(** The body of [getRepoInfo], with its cache test made against [cache]:
    [getRepoInfo] below takes the cache of the moment, [Promise.all] in
    [_determineGitHubRepos] the cache as it is when the callbacks start. *)
Definition getRepoInfo_in (cache : gmap string GitHubRepoCached)
  (repoReference : GitHubRepoReference) : M E GitHubRepo :=
  match cache !! ref_fullName repoReference with
  | Some cachedRepo =>
      ret (assign_ref cachedRepo
             (JS.or_else (ref_ref repoReference)
                (cached_defaultBranch cachedRepo)))
  | None =>
      repoRef <- of_sum (fullNameToGithubRepoReference
                           (ref_fullName repoReference)) ;;
      response <- request (ReposGet (ref_owner repoRef) (ref_name repoRef))
                    (repos_get E (ref_owner repoRef) (ref_name repoRef)) ;;
      if isRedirect response then
        console_log (LogText "Repo ${owner}/${repo} has moved permanently.") ;;;
        console_log (LogResponse response) ;;;
        throw (Error ("Repo " +:+ ref_owner repoRef +:+ "/" +:+
                      ref_name repoRef +:+ " could not be loaded."))
      else
        let gitHubRepoCached := formatGitHubRepoFromApi (data response) in
        cache_set (ref_fullName repoReference) gitHubRepoCached ;;;
        ret (assign_ref gitHubRepoCached
               (JS.or_else (ref_ref repoReference)
                  (cached_defaultBranch gitHubRepoCached)))
  end.

Definition getRepoInfo (repoReference : GitHubRepoReference)
  : M E GitHubRepo :=
  fun st => getRepoInfo_in (_cache st) repoReference st.

Definition pageSize : nat := 50.

(** [response.data.filter((obj) => !obj.private).map(formatGitHubRepoFromApi)] *)
Definition public_repos (data : list ApiRepo) : list GitHubRepoCached :=
  map formatGitHubRepoFromApi
    (List.filter (fun obj => negb (api_private obj)) data).

(** [for (const repo of pageRepos) { this._cache.set(repo.fullName, repo); }] *)
Fixpoint cache_page (pageRepos : list GitHubRepoCached) : M E unit :=
  match pageRepos with
  | [] => ret tt
  | repo :: rest =>
      cache_set (cached_fullName repo) repo ;;; cache_page rest
  end.

(** The two [if] statements at the head of the loop body of
    [getOwnerRepos]: they leave new values in [isOrg] and [pageRepos]. *)
Definition fetch_page (owner : string) (page : nat) (isOrg : bool)
  (pageRepos : list GitHubRepoCached) : M E (bool * list GitHubRepoCached) :=
  bind
    (if isOrg then
       try_catch
         (data <- request (ReposGetForOrg owner pageSize page)
                    (repos_getForOrg E owner pageSize page) ;;
          ret (true, public_repos data))
         (fun _ => ret (false, pageRepos))
     else ret (isOrg, pageRepos))
    (fun '(isOrg, pageRepos) =>
       pageRepos <-
         (if negb isOrg then
            try_catch
              (data <- request (ReposGetForUser owner pageSize page)
                         (repos_getForUser E owner pageSize page) ;;
               ret (public_repos data))
              (fun _ => ret [])
          else ret pageRepos) ;;
       ret (isOrg, pageRepos)).

(** The [do ... while (pageRepos.length > 0)] loop of [getOwnerRepos]; the
    arguments after [owner] are the variables of the loop.  The loop has no
    bound of its own: [fuel] is the number of turns it is allowed here. *)
Fixpoint getOwnerRepos_loop (fuel : nat) (owner : string)
  (allRepos pageRepos : list GitHubRepoCached) (page : nat) (isOrg : bool)
  : M E (list GitHubRepoCached) :=
  match fuel with
  | O => out_of_fuel
  | S fuel' =>
      bind (fetch_page owner page isOrg pageRepos)
        (fun '(isOrg, pageRepos) =>
           cache_page pageRepos ;;;
           let allRepos := (allRepos ++ pageRepos)%list in
           if (0 <? length pageRepos)%nat then
             getOwnerRepos_loop fuel' owner allRepos pageRepos (S page) isOrg
           else ret allRepos)
  end.

Definition getOwnerRepos (fuel : nat) (owner : string)
  : M E (list GitHubRepoCached) :=
  getOwnerRepos_loop fuel owner [] [] 0 true.

Definition warning (repoPattern : string) : LogEntry :=
  LogText ("WARNING: repo " +:+ JS.dquote +:+ repoPattern +:+ JS.dquote +:+
           " must be of the " +:+ "GitHub format " +:+ JS.dquote +:+
           "owner/repo" +:+ JS.dquote +:+ ". Ignoring...").

(** The [for (const repoPattern of repoPatterns)] loop of
    [expandRepoPatterns], on the two sets it fills. *)
Fixpoint expand_loop (repoPatterns : list string)
  (allGitHubRepos : list (Object GitHubRepoReference))
  (ownersToLookup : list string)
  : M E (list (Object GitHubRepoReference) * list string) :=
  match repoPatterns with
  | [] => ret (allGitHubRepos, ownersToLookup)
  | repoPattern :: rest =>
      if negb (JS.includes "/" repoPattern) then
        console_log (warning repoPattern) ;;;
        expand_loop rest allGitHubRepos ownersToLookup
      else if JS.includes "*" repoPattern then
        expand_loop rest allGitHubRepos
          (Set_add String.eqb repoPattern ownersToLookup)
      else
        reference <- of_sum (fullNameToGithubRepoReference repoPattern) ;;
        obj <- new_object reference ;;
        expand_loop rest (Set_add same_object obj allGitHubRepos)
          ownersToLookup
  end.

(** [ownerCachedRepos.forEach(cachedRepo => { allGitHubRepos.add({...}); })] *)
Fixpoint add_owner_repos (ref : option string)
  (ownerCachedRepos : list GitHubRepoCached)
  (allGitHubRepos : list (Object GitHubRepoReference))
  : M E (list (Object GitHubRepoReference)) :=
  match ownerCachedRepos with
  | [] => ret allGitHubRepos
  | cachedRepo :: rest =>
      obj <- new_object
               {| ref_owner := cached_owner cachedRepo;
                  ref_name := cached_name cachedRepo;
                  ref_fullName := cached_fullName cachedRepo;
                  ref_ref := Some (JS.or_else ref
                                     (cached_defaultBranch cachedRepo)) |} ;;
      add_owner_repos ref rest (Set_add same_object obj allGitHubRepos)
  end.

(** The callback of [Promise.all([...ownersToLookup].map(...))] for one
    pattern. *)
Definition lookup_owner (fuel : nat) (pattern : string)
  (allGitHubRepos : list (Object GitHubRepoReference))
  : M E (list (Object GitHubRepoReference)) :=
  let owner := JS.toLowerCase (JS.substring_to_indexOf "/" pattern) in
  let ref := if JS.includes "#" pattern
             then Some (JS.substring_after_indexOf "#" pattern)
             else None in
  ownerCachedRepos <- getOwnerRepos fuel owner ;;
  console_log (LogOwnerRepos "AHHH" owner ownerCachedRepos) ;;;
  add_owner_repos ref ownerCachedRepos allGitHubRepos.

(** The callbacks share the set [allGitHubRepos]; they are taken in the
    order of [ownersToLookup], each lookup up to its end.  With one pattern
    to look up this is what the code does.  With several, the lookups of
    the code run together, and each adds its references when its own
    listing ends: the properties below fix no order across patterns. *)
Fixpoint lookup_owners (fuel : nat) (ownersToLookup : list string)
  (allGitHubRepos : list (Object GitHubRepoReference))
  : M E (list (Object GitHubRepoReference)) :=
  match ownersToLookup with
  | [] => ret allGitHubRepos
  | pattern :: rest =>
      allGitHubRepos <- lookup_owner fuel pattern allGitHubRepos ;;
      lookup_owners fuel rest allGitHubRepos
  end.

Definition expandRepoPatterns (fuel : nat) (repoPatterns : list string)
  : M E (list GitHubRepoReference) :=
  bind (expand_loop repoPatterns [] [])
    (fun '(allGitHubRepos, ownersToLookup) =>
       if (length ownersToLookup =? 0)%nat then
         ret (map val allGitHubRepos)
       else
         allGitHubRepos <- lookup_owners fuel ownersToLookup allGitHubRepos ;;
         ret (map val allGitHubRepos)).

End GitHubConnection.

(** ** class Workspace *)

Record Patterns : Type := mkPatterns {
  include : list string;
  exclude : option (list string)
}.

Section Workspace.
Context {E : Env}.

(** [this.dir] *)
Variable this_dir : string.

(** A call that only reads the world. *)
Definition observe {A : Type} (f : World E -> A) : M E A :=
  fun st => (Returns (f (world st)), st).

(** A synchronous [array.map] or [for ... of] with a callback in [M]. *)
Fixpoint for_each {A B : Type} (f : A -> M E B) (l : list A) : M E (list B) :=
  match l with
  | [] => ret []
  | x :: xs => y <- f x ;; ys <- for_each f xs ;; ret (y :: ys)
  end.

Definition repo_not_found (failure : GitHubRepoError) : LogEntry :=
  LogText ("Repo not found: " +:+ ref_fullName (repoReference failure) +:+
           " (" +:+ message_of (error failure) +:+ ")").

(** The final [githubReposMaybe.filter(...)]: an entry with an [error]
    field is reported and dropped. *)
Fixpoint report_and_filter (githubReposMaybe : list (GitHubRepo + GitHubRepoError))
  : M E (list GitHubRepo) :=
  match githubReposMaybe with
  | [] => ret []
  | inr failure :: rest =>
      console_log (repo_not_found failure) ;;; report_and_filter rest
  | inl repo :: rest =>
      repos <- report_and_filter rest ;; ret (repo :: repos)
  end.

(** The callback of [Promise.all(repoRefs.map(async (repoRef) => ...))].
    Each callback runs up to its first [await] before any response is
    handled, so its cache test sees the cache as it was when the callbacks
    were started: that is [cache]. *)
Definition try_getRepoInfo (cache : gmap string GitHubRepoCached)
  (repoRef : GitHubRepoReference) : M E (GitHubRepo + GitHubRepoError) :=
  try_catch
    (repo <- getRepoInfo_in cache repoRef ;; ret (inl repo))
    (fun err => ret (inr {| error := err; repoReference := repoRef |})).

Definition resolve_all (repoRefs : list GitHubRepoReference)
  : M E (list (GitHubRepo + GitHubRepoError)) :=
  fun st => promise_all (try_getRepoInfo (_cache st)) repoRefs st.

Definition _determineGitHubRepos (fuel : nat) (repoPatterns : list string)
  (excludes : option (list string)) : M E (list GitHubRepo) :=
  let excludes := match excludes with Some l => l | None => [] end in
  excludes <- of_sum (JS.Array_map JS.String_prototype_toLowerCase
                        excludes) ;;
  repoRefs <- expandRepoPatterns fuel repoPatterns ;;
  let repoRefs :=
    List.filter
      (fun repoRef =>
         negb (JS.Array_includes excludes
                 (JS.toLowerCase (ref_fullName repoRef))))
      repoRefs in
  githubReposMaybe <- resolve_all repoRefs ;;
  report_and_filter githubReposMaybe.

Definition _openWorkspaceRepo (repo : GitHubRepo)
  : M E (Object WorkspaceRepo) :=
  let sessionDir := path_resolve E this_dir (repo_name repo) in
  new_object {| dir := sessionDir;
                git := mkGitRepo sessionDir;
                github := repo |}.

Definition when (b : bool) (c : M E unit) : M E unit :=
  if b then c else ret tt.

Definition _prepareWorkspaceFolders (repos : list (Object WorkspaceRepo))
  (options : WorkspaceInitOptions) : M E unit :=
  let workspaceDir := this_dir in
  when (fresh options)
    (when (verbose options)
       (console_log (LogText ("Removing workspace folder " +:+ workspaceDir
                              +:+ "..."))) ;;;
     call (rimraf E workspaceDir)) ;;;
  there <- observe (existsSync E workspaceDir) ;;
  when (negb there)
    (when (verbose options)
       (console_log (LogText ("Creating workspace folder " +:+ workspaceDir
                              +:+ "..."))) ;;;
     call (mkdirSync E workspaceDir)) ;;;
  for_each
    (fun repo : Object WorkspaceRepo =>
       there <- observe (existsSync E (dir (val repo))) ;;
       isGit <- observe (git_isGit E (git (val repo))) ;;
       when (there && negb isGit)
         (when (verbose options)
            (console_log (LogText ("Removing existing folder: " +:+
                                   dir (val repo) +:+ "..."))) ;;;
          call (rimraf E (dir (val repo)))))
    repos ;;;
  ret tt.

Definition cloneOrUpdateWorkspaceRepo (repo : Object WorkspaceRepo)
  : M E unit :=
  isGit <- observe (git_isGit E (git (val repo))) ;;
  (if isGit then
     call (git_fetch E (git (val repo))) ;;;
     call (git_destroyAllUncommittedChangesAndFiles E (git (val repo)))
   else
     call (git_clone E (git (val repo)) (repo_cloneUrl (github (val repo)))) ;;;
     ret tt) ;;;
  call (git_checkout E (git (val repo))
          (JS.or_else (Some (repo_ref (github (val repo))))
             (repo_defaultBranch (github (val repo))))) ;;;
  ret tt.

(** [localGitLimitter.schedule(f, repo)] is taken as the call [f(repo)]. *)
Definition _cloneOrUpdateWorkspaceRepos (repos : list (Object WorkspaceRepo))
  : M E unit :=
  promise_all cloneOrUpdateWorkspaceRepo repos ;;; ret tt.

(** [for (const repo of repos) { bowerConfig.dependencies[...] = ...; }] *)
Fixpoint point_to_clones (repos : list (Object WorkspaceRepo))
  (bowerConfig : BowerConfig E) : M E (BowerConfig E) :=
  match repos with
  | [] => ret bowerConfig
  | repo :: rest =>
      sha <- call (git_getHeadSha E (git (val repo))) ;;
      bowerConfig <- of_sum
        (set_dependency E bowerConfig (repo_name (github (val repo)))
           ("./" +:+ repo_name (github (val repo)) +:+ "#" +:+ sha)) ;;
      point_to_clones rest bowerConfig
  end.

Definition _configureBowerWorkspace (repos : list (Object WorkspaceRepo))
  : M E unit :=
  call (writeFileSync E (path_join E this_dir ".bowerrc")
          ("{" +:+ JS.dquote +:+ "directory" +:+ JS.dquote +:+ ": " +:+
           JS.dquote +:+ "." +:+ JS.dquote +:+ "}")) ;;;
  bowerConfig <- call (mergedBowerConfigsFromRepos E (map val repos)) ;;
  bowerConfig <- point_to_clones repos bowerConfig ;;
  call (writeFileSync E (path_join E this_dir "bower.json")
          (JSON_stringify E bowerConfig)).

Definition _installWorkspaceDependencies : M E unit :=
  call (exec E this_dir "bower" ["install"; "-F"]) ;;; ret tt.

Definition already_initialized : Exn :=
  Error "Workspace has already been initialized.".

Definition not_initialized : Exn :=
  Error "Workspace has not been initialized, run init() first.".

Definition check_commands : M E unit :=
  hasGit <- call (checkCommand E "git") ;;
  if negb hasGit then
    throw (Error ("polymer-workspace: global " +:+ JS.dquote +:+ "git"
                  +:+ JS.dquote +:+
                  " command not found. Install git on your machine and then retry."))
  else
    hasBower <- call (checkCommand E "bower") ;;
    if negb hasBower then
      throw (Error ("polymer-workspace: global " +:+ JS.dquote +:+
                    "bower" +:+ JS.dquote +:+
                    " command not found. Install bower on your machine and then retry."))
    else ret tt.

(** [if (this._initializedRepos)]: an array, also an empty one, is truthy;
    [check_commands] is the rest of the body. *)
Definition _initValidate : M E unit :=
  fun st =>
    match _initializedRepos st with
    | Some _ => throw already_initialized st
    | None => check_commands st
    end.

Definition init (fuel : nat) (patterns : Patterns)
  (options : WorkspaceInitOptions) : M E (list (Object WorkspaceRepo)) :=
  _initValidate ;;;
  githubRepos <- _determineGitHubRepos fuel (include patterns)
                   (exclude patterns) ;;
  workspaceRepos <- for_each _openWorkspaceRepo githubRepos ;;
  _prepareWorkspaceFolders workspaceRepos options ;;;
  _cloneOrUpdateWorkspaceRepos workspaceRepos ;;;
  _configureBowerWorkspace workspaceRepos ;;;
  _installWorkspaceDependencies ;;;
  set_initializedRepos workspaceRepos ;;;
  ret workspaceRepos.

(** The [for (const workspaceRepo of this._initializedRepos)] loop of [run],
    on [successRuns] and [failRuns]. *)
Fixpoint run_loop (fn : Object WorkspaceRepo -> World E -> (Exn + unit) * World E)
  (repos : list (Object WorkspaceRepo))
  (successRuns : list (Object WorkspaceRepo))
  (failRuns : list (Object WorkspaceRepo * Exn))
  : M E (list (Object WorkspaceRepo) * list (Object WorkspaceRepo * Exn)) :=
  match repos with
  | [] => ret (successRuns, failRuns)
  | workspaceRepo :: rest =>
      bind
        (try_catch
           (call (fn workspaceRepo) ;;;
            ret ((successRuns ++ [workspaceRepo])%list, failRuns))
           (fun err =>
              ret (successRuns, Map_set same_object workspaceRepo err failRuns)))
        (fun '(successRuns, failRuns) =>
           run_loop fn rest successRuns failRuns)
  end.

Definition run (fn : Object WorkspaceRepo -> World E -> (Exn + unit) * World E)
  : M E (list (Object WorkspaceRepo) * list (Object WorkspaceRepo * Exn)) :=
  fun st =>
    match _initializedRepos st with
    | None => throw not_initialized st
    | Some repos => run_loop fn repos [] [] st
    end.

End Workspace.

(** ** A small world to run the code in

    One organization, [org], with the public repositories [a] and [b] and
    the private repository [c], listed on page 0; [org/old] has moved;
    every other repository or owner is unknown to the API.  The workspace
    directory is empty and every command is installed and succeeds. *)

Module Demo.

Definition api_repo (n : string) (private : bool) : ApiRepo :=
  {| api_owner_login := "org";
     api_name := n;
     api_full_name := "org/" +:+ n;
     api_clone_url := "https://github.com/org/" +:+ n +:+ ".git";
     api_default_branch := "master";
     api_private := private |}.

Definition a : ApiRepo := api_repo "a" false.
Definition b : ApiRepo := api_repo "b" false.
Definition c : ApiRepo := api_repo "c" true.

Definition get (owner repo : string) (w : unit)
  : (Exn + ApiResponse) * unit :=
  if negb (String.eqb owner "org") then (inl (Error "Not Found"), w)
  else if String.eqb repo "a" then (inr (mkResponse None a), w)
  else if String.eqb repo "b" then (inr (mkResponse None b), w)
  else if String.eqb repo "old"
       then (inr (mkResponse (Some "301 Moved Permanently")
                    (api_repo "new" false)), w)
  else (inl (Error "Not Found"), w).

Definition getForOrg (org : string) (per_page page : nat) (w : unit)
  : (Exn + list ApiRepo) * unit :=
  if String.eqb org "org"
  then (inr (match page with O => [a; b; c] | S _ => [] end), w)
  else (inl (Error "Not Found"), w).

Definition getForUser (username : string) (per_page page : nat) (w : unit)
  : (Exn + list ApiRepo) * unit :=
  (inl (Error "Not Found"), w).

Definition env : Env :=
  {| World := unit;
     repos_get := get;
     repos_getForOrg := getForOrg;
     repos_getForUser := getForUser;
     checkCommand := fun _ w => (inr true, w);
     exec := fun _ _ _ w => (inr (EmptyString, EmptyString), w);
     existsSync := fun _ _ => false;
     mkdirSync := fun _ w => (inr tt, w);
     writeFileSync := fun _ _ w => (inr tt, w);
     rimraf := fun _ w => (inr tt, w);
     path_resolve := fun d n => d +:+ "/" +:+ n;
     path_join := fun d n => d +:+ "/" +:+ n;
     git_isGit := fun _ _ => false;
     git_fetch := fun _ w => (inr EmptyString, w);
     git_destroyAllUncommittedChangesAndFiles := fun _ w => (inr tt, w);
     git_clone := fun _ _ w => (inr EmptyString, w);
     git_checkout := fun _ _ w => (inr EmptyString, w);
     git_getHeadSha := fun _ w => (inr "0123abc", w);
     BowerConfig := list (string * string);
     mergedBowerConfigsFromRepos := fun _ w => (inr [], w);
     set_dependency := fun config k v => inr ((k, v) :: config);
     JSON_stringify := fun _ => "{}" |}.

(** A new [Workspace]: empty cache, not initialized. *)
Definition start : State env := @mkState env tt ∅ None [] [] 0.

Definition returned {A : Type} (r : Outcome (list A) * State env) : list A :=
  match fst r with Returns l => l | _ => [] end.

Definition options : WorkspaceInitOptions :=
  {| fresh := false; verbose := true |}.

(** [init({include: ['org/*']}, {verbose: true})] on a new workspace. *)
Definition first_init
  : Outcome (list (Object WorkspaceRepo)) * State env :=
  init ".workspace" 5 (mkPatterns ["org/*"] None) options start.

(** [init] with a pattern that has two '#'. *)
Definition failed_init
  : Outcome (list (Object WorkspaceRepo)) * State env :=
  init ".workspace" 5 (mkPatterns ["org/a"; "a/b#c#d"] None) options start.

(** The object that [_openWorkspaceRepo] makes at [address] for the
    repository [org/n], resolved at its default branch. *)
Definition workspace_repo (n : string) (address : nat)
  : Object WorkspaceRepo :=
  mkObject address
    {| dir := ".workspace/" +:+ n;
       git := mkGitRepo (".workspace/" +:+ n);
       github := assign_ref (formatGitHubRepoFromApi (api_repo n false))
                   "master" |}.

(** A function for [run] that throws on the repository named [b]. *)
Definition tests (repo : Object WorkspaceRepo) (w : World env)
  : (Exn + unit) * World env :=
  if String.eqb (repo_name (github (val repo))) "b"
  then (inl (Error "tests failed"), w)
  else (inr tt, w).

End Demo.

(** ** Vocabulary of the statements *)

(** A computation that leaves [_initializedRepos] as it found it. *)
Definition keeps_init {E : Env} {A : Type} (c : M E A) : Prop :=
  forall st, _initializedRepos (snd (c st)) = _initializedRepos st.

(** A computation that sets [_initializedRepos] to what it returns when it
    returns, and leaves it as it found it when it does not return. *)
Definition recorded_on_return {E : Env}
  (c : M E (list (Object WorkspaceRepo))) : Prop :=
  forall st,
    match c st with
    | (Returns repos, st') => _initializedRepos st' = Some repos
    | (_, st') => _initializedRepos st' = _initializedRepos st
    end.

(** The state with [entries] written to the console. *)
Definition logged {E : Env} (entries : list LogEntry) (st : State E)
  : State E :=
  mkState (world st) (_cache st) (_initializedRepos st)
    (console st ++ entries) (requests st) (next_addr st).

Definition successes (maybes : list (GitHubRepo + GitHubRepoError))
  : list GitHubRepo :=
  omap (fun m => match m with inl repo => Some repo | inr _ => None end)
    maybes.

Definition failures (maybes : list (GitHubRepo + GitHubRepoError))
  : list GitHubRepoError :=
  omap (fun m => match m with inl _ => None | inr failure => Some failure end)
    maybes.


(** The state after the request [q] has been answered, the world being
    left as [w]. *)
Definition answered {E : Env} (q : ApiRequest) (w : World E) (st : State E)
  : State E :=
  mkState w (_cache st) (_initializedRepos st) (console st)
    (requests st ++ [q]) (next_addr st).

(** The state with the repositories [repos] written to the cache, in order. *)
Definition cached {E : Env} (repos : list GitHubRepoCached) (st : State E)
  : State E :=
  mkState (world st)
    (fold_left (fun m repo => <[cached_fullName repo := repo]> m) repos
       (_cache st))
    (_initializedRepos st) (console st) (requests st) (next_addr st).

(** The reference that a wildcard pattern with ref [ref] gives for a listed
    repository. *)
Definition expanded_reference (ref : option string)
  (cachedRepo : GitHubRepoCached) : GitHubRepoReference :=
  {| ref_owner := cached_owner cachedRepo;
     ref_name := cached_name cachedRepo;
     ref_fullName := cached_fullName cachedRepo;
     ref_ref := Some (JS.or_else ref (cached_defaultBranch cachedRepo)) |}.

(** The API lists no public repository on any page from [N] on. *)
Definition listing_finite (E : Env) (N : nat) : Prop :=
  forall (owner : string) (per_page page : nat) (w w' : World E)
         (l : list ApiRepo),
    N <= page ->
    (repos_getForOrg E owner per_page page w = (inr l, w') ->
     public_repos l = [])
    /\ (repos_getForUser E owner per_page page w = (inr l, w') ->
        public_repos l = []).

(** The objects of a set were all allocated before [st]. *)
Definition allocated {E : Env} {A : Type} (st : State E)
  (objects : list (Object A)) : Prop :=
  Forall (fun o => addr o < next_addr st) objects.

(** What a page fetch can change: the world and the list of requests. *)
Definition only_requests {E : Env} (st st' : State E) : Prop :=
  _cache st' = _cache st /\ _initializedRepos st' = _initializedRepos st
  /\ console st' = console st /\ next_addr st' = next_addr st.

(** A pattern that [expandRepoPatterns] parses: it has a '/' and no '*'. *)
Definition is_direct (pattern : string) : bool :=
  JS.includes "/" pattern && negb (JS.includes "*" pattern).

(** A pattern that [expandRepoPatterns] looks up: it has a '/' and a '*'. *)
Definition is_wildcard (pattern : string) : bool :=
  JS.includes "/" pattern && JS.includes "*" pattern.

Definition parses (pattern : string) : bool :=
  match fullNameToGithubRepoReference pattern with
  | inr _ => true
  | inl _ => false
  end.

(** The references of the patterns that are parsed, one for each
    occurrence of a pattern, in order. *)
Definition direct_references (patterns : list string)
  : list GitHubRepoReference :=
  omap (fun pattern =>
          if is_direct pattern then
            match fullNameToGithubRepoReference pattern with
            | inr reference => Some reference
            | inl _ => None
            end
          else None)
    patterns.

(** The warnings for the patterns without '/', in order. *)
Definition warnings (patterns : list string) : list LogEntry :=
  map warning
    (List.filter (fun pattern => negb (JS.includes "/" pattern)) patterns).

(** The set [ownersToLookup] after the patterns have been gone through. *)
Definition owners_of (patterns owners : list string) : list string :=
  fold_left (fun set pattern => Set_add String.eqb pattern set)
    (List.filter is_wildcard patterns) owners.

(** The state after [n] objects have been created. *)
Definition grown {E : Env} (n : nat) (st : State E) : State E :=
  mkState (world st) (_cache st) (_initializedRepos st) (console st)
    (requests st) (next_addr st + n).


(** [fn] applied to the repositories one after the other, in order, each
    call in the world that the call before it left: the repositories with
    what the call on each returned or threw, and the world at the end. *)
Fixpoint run_outcomes {E : Env}
  (fn : Object WorkspaceRepo -> World E -> (Exn + unit) * World E)
  (repos : list (Object WorkspaceRepo)) (w : World E)
  : list (Object WorkspaceRepo * (Exn + unit)) * World E :=
  match repos with
  | [] => ([], w)
  | repo :: rest =>
      let '(outcome, w1) := fn repo w in
      let '(outcomes, w2) := run_outcomes fn rest w1 in
      ((repo, outcome) :: outcomes, w2)
  end.

Definition succeeded (outcomes : list (Object WorkspaceRepo * (Exn + unit)))
  : list (Object WorkspaceRepo) :=
  omap (fun '(repo, outcome) =>
          match outcome with inr _ => Some repo | inl _ => None end)
    outcomes.

Definition failed (outcomes : list (Object WorkspaceRepo * (Exn + unit)))
  : list (Object WorkspaceRepo * Exn) :=
  omap (fun '(repo, outcome) =>
          match outcome with inr _ => None | inl err => Some (repo, err) end)
    outcomes.

(** The state with the world replaced by [w]. *)
Definition in_world {E : Env} (w : World E) (st : State E) : State E :=
  mkState w (_cache st) (_initializedRepos st) (console st) (requests st)
    (next_addr st).


(** ** More of the code, and the vocabulary of its properties *)

(** [resetCache]: [this._cache = new Map()]. *)
Definition resetCache {E : Env} : M E unit :=
  fun st =>
    (Returns tt,
     mkState (world st) ∅ (_initializedRepos st) (console st) (requests st)
       (next_addr st)).

(** The number of [c] in [s]. *)
Fixpoint count (c : ascii) (s : string) : nat :=
  match s with
  | EmptyString => 0
  | String a s' => (if Ascii.eqb a c then 1 else 0) + count c s'
  end.

(** The part of [s] before its first [c]; all of [s] when it has none. *)
Fixpoint before (c : ascii) (s : string) : string :=
  match s with
  | EmptyString => EmptyString
  | String a s' => if Ascii.eqb a c then EmptyString else String a (before c s')
  end.

(** The pattern that stands for a reference: [fullName], then ['#'] and the
    ref when there is one. *)
Definition pattern_of (r : GitHubRepoReference) : string :=
  ref_fullName r +:+
  match ref_ref r with
  | Some x => "#" +:+ x
  | None => EmptyString
  end.

(** The state with [value] in the cache at [key]. *)
Definition stored {E : Env} (key : string) (value : GitHubRepoCached)
  (st : State E) : State E :=
  mkState (world st) (<[key := value]> (_cache st)) (_initializedRepos st)
    (console st) (requests st) (next_addr st).

(** The owner that [expandRepoPatterns] lists for a wildcard pattern. *)
Definition wildcard_owner (pattern : string) : string :=
  JS.toLowerCase (JS.substring_to_indexOf "/" pattern).

(** The ref that a wildcard pattern carries:
    [pattern.includes('#') && pattern.substring(pattern.indexOf('#') + 1)]. *)
Definition wildcard_ref (pattern : string) : option string :=
  if JS.includes "#" pattern
  then Some (JS.substring_after_indexOf "#" pattern)
  else None.

(** The references that a wildcard pattern gives when its owner is listed
    from [st]. *)
Definition expansion {E : Env} (fuel : nat) (st : State E) (pattern : string)
  : list GitHubRepoReference :=
  match fst (getOwnerRepos fuel (wildcard_owner pattern) st) with
  | Returns repos => map (expanded_reference (wildcard_ref pattern)) repos
  | _ => []
  end.

(** The answer of a listing request does not depend on the moment at which
    it is made. *)
Definition stateless_listing (E : Env) : Prop :=
  forall (owner : string) (per_page page : nat) (w w' : World E),
    fst (repos_getForOrg E owner per_page page w)
    = fst (repos_getForOrg E owner per_page page w')
    /\ fst (repos_getForUser E owner per_page page w)
       = fst (repos_getForUser E owner per_page page w').


(** ** A second small world

    [user] is a user, not an organization: the organization listing fails
    for it, and the user listing has the public [u1] and the private [u2]
    on page 0.  The organization [secret] has a private repository alone
    on page 0 and a public one on page 1.  The command [missing] is not
    installed.  Every directory exists and is a git repository. *)

Module Demo2.

Definition user_repo (n : string) (private : bool) : ApiRepo :=
  {| api_owner_login := "user";
     api_name := n;
     api_full_name := "user/" +:+ n;
     api_clone_url := "https://github.com/user/" +:+ n +:+ ".git";
     api_default_branch := "main";
     api_private := private |}.

Definition secret_repo (n : string) (private : bool) : ApiRepo :=
  {| api_owner_login := "secret";
     api_name := n;
     api_full_name := "secret/" +:+ n;
     api_clone_url := "https://github.com/secret/" +:+ n +:+ ".git";
     api_default_branch := "main";
     api_private := private |}.

Definition getForOrg (org : string) (per_page page : nat) (w : unit)
  : (Exn + list ApiRepo) * unit :=
  if String.eqb org "secret"
  then (inr (match page with
             | 0 => [secret_repo "s1" true]
             | 1 => [secret_repo "s2" false]
             | _ => []
             end), w)
  else (inl (Error "Not Found"), w).

Definition getForUser (username : string) (per_page page : nat) (w : unit)
  : (Exn + list ApiRepo) * unit :=
  if String.eqb username "user"
  then (inr (match page with
             | 0 => [user_repo "u1" false; user_repo "u2" true]
             | _ => []
             end), w)
  else (inl (Error "Not Found"), w).

Definition env (missing : string) : Env :=
  {| World := unit;
     repos_get := Demo.get;
     repos_getForOrg := getForOrg;
     repos_getForUser := getForUser;
     checkCommand := fun command w => (inr (negb (String.eqb command missing)), w);
     exec := exec Demo.env;
     existsSync := fun _ _ => true;
     mkdirSync := mkdirSync Demo.env;
     writeFileSync := writeFileSync Demo.env;
     rimraf := rimraf Demo.env;
     path_resolve := path_resolve Demo.env;
     path_join := path_join Demo.env;
     git_isGit := fun _ _ => true;
     git_fetch := git_fetch Demo.env;
     git_destroyAllUncommittedChangesAndFiles :=
       git_destroyAllUncommittedChangesAndFiles Demo.env;
     git_clone := git_clone Demo.env;
     git_checkout := git_checkout Demo.env;
     git_getHeadSha := git_getHeadSha Demo.env;
     BowerConfig := BowerConfig Demo.env;
     mergedBowerConfigsFromRepos := mergedBowerConfigsFromRepos Demo.env;
     set_dependency := set_dependency Demo.env;
     JSON_stringify := JSON_stringify Demo.env |}.

Definition start (missing : string) : State (env missing) :=
  @mkState (env missing) tt ∅ None [] [] 0.

End Demo2.

(** [bowerConfig.dependencies[key]] on the bower configuration of the
    small worlds, a list of entries with the last written first. *)
Fixpoint demo_dependency (config : list (string * string)) (key : string)
  : option string :=
  match config with
  | [] => None
  | (k, v) :: rest => if String.eqb k key then Some v else demo_dependency rest key
  end.

(** ** The earlier Workspace class, with [GitSession] and [exec]

    The second class of workspace.ts works on [GitSession] objects
    (git.ts), whose methods run git commands through [exec] (util/exec.ts).
    What these import and do not define is taken as a variable:
    [child_process_exec] is the promisified [child_process.exec], from a
    command and its options to [stdout] and [stderr]; [trim] is
    [String.prototype.trim] after the decoding of the buffer;
    [process_cwd] is [process.cwd()]; [get_dependency] reads
    [bowerConfig.dependencies[key]], which [set_dependency] writes;
    [merged] is [mergedBowerConfigsFromRepos]. *)

Module Legacy.

Record ExecOptions : Type := mkExecOptions {
  opt_cwd : option string;
  maxBuffer : option nat
}.

Record GitSession : Type := mkGitSession { cwd : string }.

Record WorkspaceRepo : Type := mkWorkspaceRepo {
  dir : string;
  github : GitHubRepo;
  session : GitSession
}.

Section Legacy.
Context {E : Env}.
Variable child_process_exec :
  string -> ExecOptions -> World E -> (Exn + string * string) * World E.
Variable trim : string -> string.
Variable process_cwd : World E -> string.
Variable get_dependency : BowerConfig E -> string -> option string.
Variable merged :
  list WorkspaceRepo -> World E -> (Exn + BowerConfig E) * World E.

(** [Object.assign({}, options, {cwd})], then the command, then the two
    outputs trimmed. *)
Definition exec (cwd command : string) (options : option ExecOptions)
  : M E (string * string) :=
  let commandOptions :=
    {| opt_cwd := Some cwd;
       maxBuffer := match options with
                    | Some o => maxBuffer o
                    | None => None
                    end |} in
  bind (call (child_process_exec command commandOptions))
    (fun '(stdout, stderr) => ret (trim stdout, trim stderr)).

Definition isGit (this : GitSession) : M E bool :=
  observe (existsSync E (path_join E (cwd this) ".git")).

Definition getHeadSha (this : GitSession) : M E string :=
  out <- exec (cwd this) "git rev-parse HEAD" None ;; ret (fst out).

Definition reset (this : GitSession) : M E unit :=
  exec (cwd this) "git reset --hard" None ;;;
  exec (cwd this) "git clean -fd" None ;;;
  ret tt.

Definition clone (this : GitSession) (url : string) : M E string :=
  here <- observe process_cwd ;;
  out <- exec here ("git clone " +:+ url +:+ " " +:+ cwd this) None ;;
  ret (fst out).

Definition fetch (this : GitSession) (remoteName : string) : M E string :=
  out <- exec (cwd this) ("git fetch " +:+ remoteName) None ;; ret (fst out).

Definition checkout (this : GitSession) (branch : string) : M E string :=
  out <- exec (cwd this) ("git checkout " +:+ branch) None ;; ret (fst out).

(** The body of the [for] loop of [_cloneOrUpdateWorkspaceRepos]. *)
Definition cloneOrUpdate (repo : WorkspaceRepo) : M E unit :=
  is_git <- isGit (session repo) ;;
  (if is_git then
     fetch (session repo) EmptyString ;;; reset (session repo)
   else
     clone (session repo) (repo_cloneUrl (github repo)) ;;; ret tt) ;;;
  checkout (session repo) (repo_ref (github repo)) ;;;
  ret tt.

Definition _cloneOrUpdateWorkspaceRepos (repos : list WorkspaceRepo)
  : M E unit :=
  for_each cloneOrUpdate repos ;;; ret tt.

(** [for (const repo of repos) { bowerConfig.dependencies[...] = ...; }] *)
Fixpoint point_to_clones (repos : list WorkspaceRepo)
  (bowerConfig : BowerConfig E) : M E (BowerConfig E) :=
  match repos with
  | [] => ret bowerConfig
  | repo :: rest =>
      sha <- getHeadSha (session repo) ;;
      bowerConfig <- of_sum
        (set_dependency E bowerConfig (repo_name (github repo))
           ("./" +:+ repo_name (github repo) +:+ "#" +:+ sha)) ;;
      point_to_clones rest bowerConfig
  end.

(** The configuration that [_installWorkspaceDependencies] writes to
    bower.json: from [mergedBowerConfigsFromRepos] to the end of the
    loop. *)
Definition bower_config (repos : list WorkspaceRepo) : M E (BowerConfig E) :=
  bowerConfig <- call (merged repos) ;;
  bowerConfig <-
    (match JS.or_undefined (get_dependency bowerConfig "web-component-tester")
     with
     | None =>
         of_sum (set_dependency E bowerConfig "web-component-tester"
                   EmptyString)
     | Some _ => ret bowerConfig
     end) ;;
  point_to_clones repos bowerConfig.

Definition _installWorkspaceDependencies (this_dir : string)
  (repos : list WorkspaceRepo) : M E unit :=
  call (writeFileSync E (path_join E this_dir ".bowerrc")
          ("{" +:+ JS.dquote +:+ "directory" +:+ JS.dquote +:+ ": " +:+
           JS.dquote +:+ "." +:+ JS.dquote +:+ "}")) ;;;
  bowerConfig <- bower_config repos ;;
  call (writeFileSync E (path_join E this_dir "bower.json")
          (JSON_stringify E bowerConfig)) ;;;
  exec this_dir "bower install -F"
    (Some {| opt_cwd := None; maxBuffer := Some (1000 * 1024) |}) ;;;
  ret tt.

End Legacy.
End Legacy.

(** The laws of reading and writing [bowerConfig.dependencies]: a written
    key reads as what was written, and the other keys read as before. *)
Definition dependency_laws (E : Env)
  (get_dependency : BowerConfig E -> string -> option string) : Prop :=
  forall config config' key value,
    set_dependency E config key value = inr config' ->
    get_dependency config' key = Some value
    /\ forall other, other <> key ->
         get_dependency config' other = get_dependency config other.

(** A shell for the second small world: every command prints a revision,
    but in the directory of [b], where every command fails. *)

Module LegacyDemo.

Definition child_process_exec (command : string)
  (options : Legacy.ExecOptions) (w : unit) : (Exn + string * string) * unit :=
  match Legacy.opt_cwd options with
  | Some (".workspace/b") => (inl (Error ("Command failed: " +:+ command)), w)
  | _ => (inr ("0123abc", EmptyString), w)
  end.

Definition trim (s : string) : string := s.

Definition process_cwd (w : unit) : string := "/home".

Definition merged (repos : list Legacy.WorkspaceRepo) (w : unit)
  : (Exn + list (string * string)) * unit :=
  (inr [("polymer", "Polymer/polymer#^2.0.0")], w).

Definition repo (n : string) : Legacy.WorkspaceRepo :=
  {| Legacy.dir := ".workspace/" +:+ n;
     Legacy.github := assign_ref (formatGitHubRepoFromApi
                                    (Demo.api_repo n false)) "master";
     Legacy.session := Legacy.mkGitSession (".workspace/" +:+ n) |}.

End LegacyDemo.


(** * Properties *)

(** ** Splitting and parsing *)

Lemma append_cons (c : ascii) (a b : string) :
  String c a +:+ b = String c (a +:+ b).
Proof. reflexivity. Qed.

Lemma append_empty (b : string) : EmptyString +:+ b = b.
Proof. reflexivity. Qed.

Lemma append_assoc (a b c : string) : (a +:+ b) +:+ c = a +:+ (b +:+ c).
Proof.
  induction a as [|x a IH]; [reflexivity|].
  rewrite !append_cons. f_equal. exact IH.
Qed.

Section Split.
Variable sep : ascii.

Lemma split_without (s : string) :
  JS.includes sep s = false -> JS.split sep s = [s].
Proof.
  induction s as [|c s IH]; simpl; [reflexivity|].
  intros H. apply orb_false_iff in H as [Hc Hs].
  rewrite Hc, (IH Hs). reflexivity.
Qed.

Lemma split_at_first (a b : string) :
  JS.includes sep a = false ->
  JS.split sep (a +:+ String sep b) = a :: JS.split sep b.
Proof.
  induction a as [|c a IH].
  - intros _. rewrite append_empty. simpl. rewrite Ascii.eqb_refl. reflexivity.
  - intros H. simpl in H. apply orb_false_iff in H as [Hc Ha].
    rewrite append_cons. simpl. rewrite Hc, (IH Ha). reflexivity.
Qed.

Lemma includes_app (a b : string) :
  JS.includes sep (a +:+ b) = JS.includes sep a || JS.includes sep b.
Proof.
  induction a as [|c a IH]; [reflexivity|].
  rewrite append_cons. simpl. rewrite IH, orb_assoc. reflexivity.
Qed.

End Split.

Example parse_plain :
  fullNameToGithubRepoReference "Polymer/polymer"
  = inr (mkReference "Polymer" "polymer" "Polymer/polymer" None).
Proof. reflexivity. Qed.

Example parse_with_ref :
  fullNameToGithubRepoReference "Polymer/polymer#2.0-preview"
  = inr (mkReference "Polymer" "polymer" "Polymer/polymer" (Some "2.0-preview")).
Proof. reflexivity. Qed.

Example parse_two_hashes :
  fullNameToGithubRepoReference "a/b#c#d"
  = inl (Error "Repo 'a/b#c#d' is not in form user/repo or user/repo#ref").
Proof. reflexivity. Qed.

Example parse_empty_ref :
  fullNameToGithubRepoReference "a/b#"
  = inr (mkReference "a" "b" "a/b" None).
Proof. reflexivity. Qed.

Lemma parse_owner_name (o n : string) :
  JS.includes "/" o = false -> JS.includes "#" o = false ->
  JS.includes "/" n = false -> JS.includes "#" n = false ->
  fullNameToGithubRepoReference (o +:+ "/" +:+ n)
  = inr (mkReference o n (o +:+ "/" +:+ n) None).
Proof.
  intros Hso Hho Hsn Hhn. unfold fullNameToGithubRepoReference.
  assert (Hh : JS.includes "#" (o +:+ "/" +:+ n) = false).
  { rewrite !includes_app, Hho, Hhn. reflexivity. }
  rewrite (split_without _ _ Hh). simpl hd.
  change (o +:+ "/" +:+ n) with (o +:+ String "/" n).
  rewrite (split_at_first _ _ _ Hso), (split_without _ _ Hsn).
  reflexivity.
Qed.

Lemma parse_owner_name_ref (o n r : string) :
  JS.includes "/" o = false -> JS.includes "#" o = false ->
  JS.includes "/" n = false -> JS.includes "#" n = false ->
  JS.includes "#" r = false ->
  fullNameToGithubRepoReference (o +:+ "/" +:+ n +:+ "#" +:+ r)
  = inr (mkReference o n (o +:+ "/" +:+ n) (JS.or_undefined (Some r))).
Proof.
  intros Hso Hho Hsn Hhn Hhr. unfold fullNameToGithubRepoReference.
  assert (Hh : JS.includes "#" (o +:+ "/" +:+ n) = false).
  { rewrite !includes_app, Hho, Hhn. reflexivity. }
  replace (o +:+ "/" +:+ n +:+ "#" +:+ r)
    with ((o +:+ "/" +:+ n) +:+ String "#" r)
    by (rewrite append_assoc; reflexivity).
  rewrite (split_at_first _ _ _ Hh), (split_without _ _ Hhr). simpl hd.
  change (o +:+ "/" +:+ n) with (o +:+ String "/" n).
  rewrite (split_at_first _ _ _ Hso), (split_without _ _ Hsn).
  reflexivity.
Qed.

(** C9. For owner and name segments free of '/' and '#', parsing
    [owner/name] gives the reference with that owner, name and
    fullName [owner + "/" + name] and no ref; parsing [owner/name#ref]
    with a non-empty ref free of '#' gives the same reference with ref
    set to it. *)
Theorem parse_valid_pattern (o n : string) :
  JS.includes "/" o = false -> JS.includes "#" o = false ->
  JS.includes "/" n = false -> JS.includes "#" n = false ->
  fullNameToGithubRepoReference (o +:+ "/" +:+ n)
  = inr {| ref_owner := o; ref_name := n;
           ref_fullName := o +:+ "/" +:+ n; ref_ref := None |}
  /\ forall r : string,
      r <> EmptyString -> JS.includes "#" r = false ->
      fullNameToGithubRepoReference (o +:+ "/" +:+ n +:+ "#" +:+ r)
      = inr {| ref_owner := o; ref_name := n;
               ref_fullName := o +:+ "/" +:+ n; ref_ref := Some r |}.
Proof.
  intros Hso Hho Hsn Hhn. split.
  - now apply parse_owner_name.
  - intros r Hr Hhr. rewrite parse_owner_name_ref by assumption.
    destruct r; [contradiction|reflexivity].
Qed.

Lemma parse_valid_pattern_witness :
  fullNameToGithubRepoReference ("Polymer" +:+ "/" +:+ "polymer")
  = inr (mkReference "Polymer" "polymer" "Polymer/polymer" None)
  /\ fullNameToGithubRepoReference
       ("Polymer" +:+ "/" +:+ "polymer" +:+ "#" +:+ "2.0-preview")
     = inr (mkReference "Polymer" "polymer" "Polymer/polymer"
              (Some "2.0-preview")).
Proof.
  destruct (parse_valid_pattern "Polymer" "polymer"
              eq_refl eq_refl eq_refl eq_refl) as [H1 H2].
  split.
  - exact H1.
  - apply (H2 "2.0-preview"); [discriminate | reflexivity].
Defined.


(** ** The promise monad *)

Section Monad.
Context {E : Env}.

Lemma bind_returns {A B : Type} (c : M E A) (k : A -> M E B)
  (st st1 : State E) (a : A) :
  c st = (Returns a, st1) -> bind c k st = k a st1.
Proof. intros H. unfold bind. rewrite H. reflexivity. Qed.

Lemma bind_inv {A B : Type} (c : M E A) (k : A -> M E B)
  (st st2 : State E) (b : B) :
  bind c k st = (Returns b, st2) ->
  exists a st1, c st = (Returns a, st1) /\ k a st1 = (Returns b, st2).
Proof.
  unfold bind. destruct (c st) as [[a|e|] st1]; intros H;
    [eauto | discriminate | discriminate].
Qed.

Lemma keeps_ret {A : Type} (a : A) : keeps_init (E:=E) (ret a).
Proof. intros st. reflexivity. Qed.

Lemma keeps_throw {A : Type} (e : Exn) : keeps_init (@throw E A e).
Proof. intros st. reflexivity. Qed.

Lemma keeps_out_of_fuel {A : Type} : keeps_init (@out_of_fuel E A).
Proof. intros st. reflexivity. Qed.

Lemma keeps_of_sum {A : Type} (r : Exn + A) : keeps_init (E:=E) (of_sum r).
Proof. destruct r; intros st; reflexivity. Qed.

Lemma keeps_bind {A B : Type} (c : M E A) (k : A -> M E B) :
  keeps_init c -> (forall a, keeps_init (k a)) -> keeps_init (bind c k).
Proof.
  intros Hc Hk st. unfold bind. specialize (Hc st).
  destruct (c st) as [[a|e|] st1]; simpl in *; [|assumption|assumption].
  rewrite (Hk a st1). assumption.
Qed.

Lemma keeps_try_catch {A : Type} (c : M E A) (h : Exn -> M E A) :
  keeps_init c -> (forall e, keeps_init (h e)) -> keeps_init (try_catch c h).
Proof.
  intros Hc Hh st. unfold try_catch. specialize (Hc st).
  destruct (c st) as [[a|e|] st1]; simpl in *; [assumption| |assumption].
  rewrite (Hh e st1). assumption.
Qed.

Lemma keeps_call {A : Type} (f : World E -> (Exn + A) * World E) :
  keeps_init (call f).
Proof.
  intros st. unfold call. destruct (f (world st)) as [[e|a] w]; reflexivity.
Qed.

Lemma keeps_request {A : Type} (q : ApiRequest)
  (f : World E -> (Exn + A) * World E) : keeps_init (request q f).
Proof.
  intros st. unfold request. rewrite keeps_call. reflexivity.
Qed.

Lemma keeps_console_log (entry : LogEntry) : keeps_init (@console_log E entry).
Proof. intros st. reflexivity. Qed.

Lemma keeps_new_object {A : Type} (v : A) : keeps_init (@new_object E A v).
Proof. intros st. reflexivity. Qed.

Lemma keeps_cache_set (key : string) (value : GitHubRepoCached) :
  keeps_init (@cache_set E key value).
Proof. intros st. reflexivity. Qed.

Lemma keeps_observe {A : Type} (f : World E -> A) : keeps_init (observe f).
Proof. intros st. reflexivity. Qed.

Lemma keeps_when (b : bool) (c : M E unit) :
  keeps_init c -> keeps_init (when b c).
Proof. destruct b; [trivial | intros _; apply keeps_ret]. Qed.

Lemma keeps_if {A : Type} (b : bool) (c1 c2 : M E A) :
  keeps_init c1 -> keeps_init c2 -> keeps_init (if b then c1 else c2).
Proof. destruct b; trivial. Qed.

Lemma keeps_promise_all {A B : Type} (f : A -> M E B) (l : list A) :
  (forall a, keeps_init (f a)) -> keeps_init (promise_all f l).
Proof.
  intros Hf. induction l as [|x xs IH]; intros st; [reflexivity|].
  simpl. specialize (Hf x st).
  destruct (f x st) as [[b|e|] st1]; simpl in *; [| |assumption].
  - specialize (IH st1).
    destruct (promise_all f xs st1) as [[bs|e|] st2]; simpl in *; congruence.
  - rewrite (IH st1). assumption.
Qed.

Lemma keeps_for_each {A B : Type} (f : A -> M E B) (l : list A) :
  (forall a, keeps_init (f a)) -> keeps_init (for_each f l).
Proof.
  intros Hf. induction l as [|x xs IH]; simpl; [apply keeps_ret|].
  apply keeps_bind; [apply Hf|]. intros y.
  apply keeps_bind; [apply IH|]. intros ys. apply keeps_ret.
Qed.

End Monad.

Create HintDb keeps.

#[local] Hint Resolve keeps_ret keeps_throw keeps_out_of_fuel keeps_of_sum
  keeps_call keeps_request keeps_console_log keeps_new_object keeps_cache_set
  keeps_observe : keeps.

(** Breaks a goal [keeps_init c] along the structure of [c]. *)
Ltac keeps :=
  repeat first
    [ progress auto with keeps
    | apply keeps_bind; [|intros ?]
    | apply keeps_try_catch; [|intros ?]
    | apply keeps_when
    | apply keeps_if
    | apply keeps_promise_all; intros ?
    | apply keeps_for_each; intros ?
    | match goal with
      | |- keeps_init (match ?x with _ => _ end) => destruct x
      | |- keeps_init (let '(_, _) := ?x in _) => destruct x
      end ].

(** ** GitHubConnection: what no call touches *)

Section ConnectionKeeps.
Context {E : Env}.

Lemma keeps_getRepoInfo_in (cache : gmap string GitHubRepoCached)
  (r : GitHubRepoReference) : keeps_init (getRepoInfo_in (E:=E) cache r).
Proof. unfold getRepoInfo_in. keeps. Qed.

Lemma keeps_cache_page (l : list GitHubRepoCached) :
  keeps_init (cache_page (E:=E) l).
Proof. induction l; simpl; keeps. Qed.
#[local] Hint Resolve keeps_cache_page : keeps.

Lemma keeps_getOwnerRepos_loop (fuel : nat) (o : string)
  (allRepos pageRepos : list GitHubRepoCached) (page : nat) (isOrg : bool) :
  keeps_init (getOwnerRepos_loop (E:=E) fuel o allRepos pageRepos page isOrg).
Proof.
  revert allRepos pageRepos page isOrg.
  induction fuel as [|fuel IH]; intros; simpl; unfold fetch_page; keeps.
Qed.
#[local] Hint Resolve keeps_getOwnerRepos_loop : keeps.

Lemma keeps_expand_loop (pats : list string)
  (all : list (Object GitHubRepoReference)) (owners : list string) :
  keeps_init (expand_loop (E:=E) pats all owners).
Proof.
  revert all owners. induction pats as [|p pats IH]; intros; simpl; keeps.
Qed.
#[local] Hint Resolve keeps_expand_loop : keeps.

Lemma keeps_add_owner_repos (r : option string) (l : list GitHubRepoCached)
  (all : list (Object GitHubRepoReference)) :
  keeps_init (add_owner_repos (E:=E) r l all).
Proof. revert all. induction l as [|c l IH]; intros; simpl; keeps. Qed.
#[local] Hint Resolve keeps_add_owner_repos : keeps.

Lemma keeps_lookup_owners (fuel : nat) (owners : list string)
  (all : list (Object GitHubRepoReference)) :
  keeps_init (lookup_owners (E:=E) fuel owners all).
Proof.
  revert all. induction owners as [|p owners IH]; intros; simpl; keeps.
  unfold lookup_owner, getOwnerRepos. keeps.
Qed.
#[local] Hint Resolve keeps_lookup_owners : keeps.

Lemma keeps_expandRepoPatterns (fuel : nat) (pats : list string) :
  keeps_init (expandRepoPatterns (E:=E) fuel pats).
Proof. unfold expandRepoPatterns. keeps. Qed.

End ConnectionKeeps.

#[local] Hint Resolve keeps_getRepoInfo_in keeps_cache_page
  keeps_getOwnerRepos_loop keeps_expand_loop keeps_add_owner_repos
  keeps_lookup_owners keeps_expandRepoPatterns : keeps.

(** ** Workspace: [init] and the initialized state *)

Section WorkspaceInit.
Context {E : Env}.
Variable this_dir : string.

Lemma keeps_report_and_filter (l : list (GitHubRepo + GitHubRepoError)) :
  keeps_init (report_and_filter (E:=E) l).
Proof. induction l as [|[r|f] l IH]; simpl; keeps. Qed.

Lemma keeps_resolve_all (refs : list GitHubRepoReference) :
  keeps_init (resolve_all (E:=E) refs).
Proof.
  intros st. unfold resolve_all.
  apply (keeps_promise_all (try_getRepoInfo (_cache st)) refs).
  intros r. unfold try_getRepoInfo. keeps.
Qed.

Lemma keeps__determineGitHubRepos (fuel : nat) (pats : list string)
  (excludes : option (list string)) :
  keeps_init (_determineGitHubRepos (E:=E) fuel pats excludes).
Proof.
  unfold _determineGitHubRepos. keeps.
  - apply keeps_resolve_all.
  - apply keeps_report_and_filter.
Qed.

Lemma keeps__prepareWorkspaceFolders (repos : list (Object WorkspaceRepo))
  (options : WorkspaceInitOptions) :
  keeps_init (_prepareWorkspaceFolders (E:=E) this_dir repos options).
Proof. unfold _prepareWorkspaceFolders. keeps. Qed.

Lemma keeps__cloneOrUpdateWorkspaceRepos (repos : list (Object WorkspaceRepo)) :
  keeps_init (_cloneOrUpdateWorkspaceRepos (E:=E) repos).
Proof.
  unfold _cloneOrUpdateWorkspaceRepos, cloneOrUpdateWorkspaceRepo. keeps.
Qed.

Lemma keeps_point_to_clones (repos : list (Object WorkspaceRepo))
  (config : BowerConfig E) : keeps_init (point_to_clones repos config).
Proof. revert config. induction repos as [|r l IH]; intros; simpl; keeps. Qed.

Lemma keeps__configureBowerWorkspace (repos : list (Object WorkspaceRepo)) :
  keeps_init (_configureBowerWorkspace (E:=E) this_dir repos).
Proof.
  unfold _configureBowerWorkspace. keeps. apply keeps_point_to_clones.
Qed.

Lemma keeps__installWorkspaceDependencies :
  keeps_init (_installWorkspaceDependencies (E:=E) this_dir).
Proof. unfold _installWorkspaceDependencies. keeps. Qed.

Lemma keeps_check_commands : keeps_init (check_commands (E:=E)).
Proof. unfold check_commands. keeps. Qed.

Lemma keeps__initValidate : keeps_init (_initValidate (E:=E)).
Proof.
  intros st. unfold _initValidate.
  destruct (_initializedRepos st) eqn:H;
    [simpl; exact H | rewrite keeps_check_commands; exact H].
Qed.

Lemma recorded_bind {A : Type} (c : M E A)
  (k : A -> M E (list (Object WorkspaceRepo))) :
  keeps_init c -> (forall a, recorded_on_return (k a)) ->
  recorded_on_return (bind c k).
Proof.
  intros Hc Hk st. unfold bind. specialize (Hc st).
  destruct (c st) as [[a|e|] st1]; simpl in *; [|assumption|assumption].
  specialize (Hk a st1).
  destruct (k a st1) as [[b|e|] st2]; simpl in *; congruence.
Qed.

(** [init] sets [_initializedRepos] as its last step: it is set to what
    [init] returns when [init] returns, and is untouched otherwise. *)
Lemma init_recorded (fuel : nat) (patterns : Patterns)
  (options : WorkspaceInitOptions) :
  recorded_on_return (init (E:=E) this_dir fuel patterns options).
Proof.
  unfold init.
  apply recorded_bind; [apply keeps__initValidate | intros _].
  apply recorded_bind; [apply keeps__determineGitHubRepos | intros repos].
  apply recorded_bind; [unfold _openWorkspaceRepo; keeps | intros wrepos].
  apply recorded_bind; [apply keeps__prepareWorkspaceFolders | intros _].
  apply recorded_bind; [apply keeps__cloneOrUpdateWorkspaceRepos | intros _].
  apply recorded_bind; [apply keeps__configureBowerWorkspace | intros _].
  apply recorded_bind; [apply keeps__installWorkspaceDependencies | intros _].
  intros st. reflexivity.
Qed.

Lemma init_when_initialized (fuel : nat) (patterns : Patterns)
  (options : WorkspaceInitOptions) (st : State E)
  (repos : list (Object WorkspaceRepo)) :
  _initializedRepos st = Some repos ->
  init this_dir fuel patterns options st = (Throws already_initialized, st).
Proof.
  intros H. unfold init, bind, _initValidate. rewrite H. reflexivity.
Qed.

(** C4. When [init] has returned on a workspace, any further call of
    [init] throws the already-initialized error, whatever its arguments,
    and changes nothing: [_initializedRepos] still holds the repositories
    that the first call recorded and returned. *)
Theorem second_init_fails (fuel : nat) (patterns : Patterns)
  (options : WorkspaceInitOptions) (st st1 : State E)
  (repos : list (Object WorkspaceRepo)) :
  init this_dir fuel patterns options st = (Returns repos, st1) ->
  _initializedRepos st1 = Some repos
  /\ forall fuel' patterns' options',
      init this_dir fuel' patterns' options' st1
      = (Throws already_initialized, st1).
Proof.
  intros H. pose proof (init_recorded fuel patterns options st) as R.
  rewrite H in R. simpl in R. split; [exact R|].
  intros. now apply init_when_initialized with (repos := repos).
Qed.

(** C10. On a workspace that is not initialized, a call of [init] that
    does not run to its end, because a step throws or because it never
    ends, leaves [_initializedRepos] unset, so that [_initValidate] of a
    later call goes on to check the commands; [_initializedRepos] is set,
    to the repositories returned, exactly when [init] returns. *)
Theorem init_failure_leaves_uninitialized (fuel : nat) (patterns : Patterns)
  (options : WorkspaceInitOptions) (st : State E) :
  _initializedRepos st = None ->
  (forall e st', init this_dir fuel patterns options st = (Throws e, st') ->
     _initializedRepos st' = None
     /\ _initValidate st' = check_commands st')
  /\ (forall st', init this_dir fuel patterns options st = (OutOfFuel, st') ->
        _initializedRepos st' = None)
  /\ (forall repos st',
        init this_dir fuel patterns options st = (Returns repos, st') ->
        _initializedRepos st' = Some repos).
Proof.
  intros Hnone. pose proof (init_recorded fuel patterns options st) as R.
  repeat split.
  - rewrite H in R. simpl in R. congruence.
  - rewrite H in R. simpl in R. unfold _initValidate.
    replace (_initializedRepos st') with (@None (list (Object WorkspaceRepo)))
      by congruence.
    reflexivity.
  - intros st' H. rewrite H in R. simpl in R. congruence.
  - intros repos st' H. rewrite H in R. exact R.
Qed.

End WorkspaceInit.

Lemma second_init_fails_witness :
  _initializedRepos (snd Demo.first_init)
  = Some (Demo.returned Demo.first_init)
  /\ init ".workspace" 5 (mkPatterns ["org/a"] None) Demo.options
       (snd Demo.first_init)
     = (Throws already_initialized, snd Demo.first_init).
Proof.
  assert (H : init ".workspace" 5 (mkPatterns ["org/*"] None) Demo.options
                Demo.start
              = (Returns (Demo.returned Demo.first_init), snd Demo.first_init))
    by (vm_compute; reflexivity).
  destruct (second_init_fails _ _ _ _ _ _ _ H) as [H1 H2].
  split; [exact H1 | apply H2].
Defined.

Example first_init_returns_two :
  map (fun r => repo_fullName (github (val r)))
    (Demo.returned Demo.first_init) = ["org/a"; "org/b"].
Proof. vm_compute. reflexivity. Qed.

Lemma init_failure_leaves_uninitialized_witness :
  _initializedRepos (snd Demo.failed_init) = None
  /\ _initValidate (snd Demo.failed_init)
     = check_commands (snd Demo.failed_init).
Proof.
  apply (proj1 (init_failure_leaves_uninitialized ".workspace" 5
                  (mkPatterns ["org/a"; "a/b#c#d"] None) Demo.options
                  Demo.start eq_refl)
           (Error "Repo 'a/b#c#d' is not in form user/repo or user/repo#ref")).
  vm_compute. reflexivity.
Defined.

(** ** GitHubConnection: the cache *)

Section Cache.
Context {E : Env}.

Lemma getRepoInfo_hit (st : State E) (r : GitHubRepoReference)
  (cachedRepo : GitHubRepoCached) :
  _cache st !! ref_fullName r = Some cachedRepo ->
  getRepoInfo r st
  = (Returns (assign_ref cachedRepo
                (JS.or_else (ref_ref r) (cached_defaultBranch cachedRepo))),
     st).
Proof.
  intros H. unfold getRepoInfo, getRepoInfo_in. rewrite H. reflexivity.
Qed.

(** Whatever [getRepoInfo] returns is then in the cache, without the ref. *)
Lemma getRepoInfo_caches (st st1 : State E) (r : GitHubRepoReference)
  (repo : GitHubRepo) :
  getRepoInfo r st = (Returns repo, st1) ->
  exists cachedRepo,
    _cache st1 !! ref_fullName r = Some cachedRepo
    /\ repo = assign_ref cachedRepo
                (JS.or_else (ref_ref r) (cached_defaultBranch cachedRepo)).
Proof.
  unfold getRepoInfo, getRepoInfo_in.
  destruct (_cache st !! ref_fullName r) as [cachedRepo|] eqn:Hc.
  - intros [= <- <-]. eauto.
  - unfold bind at 1.
    destruct (fullNameToGithubRepoReference (ref_fullName r)) as [e|parsed];
      [discriminate|]. simpl.
    unfold bind at 1, request, call. simpl.
    destruct (repos_get E (ref_owner parsed) (ref_name parsed) (world st))
      as [[e|response] w]; [discriminate|]. simpl.
    destruct (isRedirect response); [discriminate|].
    intros [= <- <-]. simpl. eexists. split; [apply lookup_insert_eq|].
    reflexivity.
Qed.

(** Resolving the same reference again gives the same repository and
    changes nothing: no request is made. *)
Lemma getRepoInfo_twice (st st1 : State E) (r : GitHubRepoReference)
  (repo : GitHubRepo) :
  getRepoInfo r st = (Returns repo, st1) ->
  getRepoInfo r st1 = (Returns repo, st1).
Proof.
  intros H. destruct (getRepoInfo_caches _ _ _ _ H) as (c & Hc & ->).
  now apply getRepoInfo_hit.
Qed.


End Cache.


(** ** Workspace: the targets of [init] *)

Section Targets.
Context {E : Env}.

Lemma Array_map_toLowerCase_throws (x : string) (xs : list string) :
  JS.Array_map JS.String_prototype_toLowerCase (x :: xs)
  = inl (TypeError "String.prototype.toLowerCase called on null or undefined").
Proof. reflexivity. Qed.

(** With any non-empty [exclude], [_determineGitHubRepos] throws at its
    first statement, before any pattern is looked at. *)
Lemma excludes_throw (fuel : nat) (pats : list string) (x : string)
  (xs : list string) (st : State E) :
  _determineGitHubRepos fuel pats (Some (x :: xs)) st
  = (Throws
       (TypeError "String.prototype.toLowerCase called on null or undefined"),
     st).
Proof. reflexivity. Qed.

Lemma logged_nil (st : State E) : logged [] st = st.
Proof. destruct st. unfold logged. simpl. now rewrite app_nil_r. Qed.

Lemma logged_logged (l1 l2 : list LogEntry) (st : State E) :
  logged l2 (logged l1 st) = logged (l1 ++ l2) st.
Proof. unfold logged. simpl. now rewrite app_assoc. Qed.




Lemma report_and_filter_spec (maybes : list (GitHubRepo + GitHubRepoError))
  (st : State E) :
  report_and_filter maybes st
  = (Returns (successes maybes),
     logged (map repo_not_found (failures maybes)) st).
Proof.
  revert st. induction maybes as [|[repo|failure] rest IH]; intros st; simpl.
  - now rewrite logged_nil.
  - unfold bind. rewrite IH. reflexivity.
  - unfold bind. simpl. rewrite IH. f_equal.
    unfold logged. simpl. now rewrite <- app_assoc.
Qed.





End Targets.

(** ** GitHubConnection: listing the repositories of an owner *)

Section Listing.
Context {E : Env}.

Lemma cache_page_spec (l : list GitHubRepoCached) (st : State E) :
  cache_page l st = (Returns tt, cached l st).
Proof.
  revert st. induction l as [|repo l IH]; intros st; simpl.
  - destruct st. reflexivity.
  - unfold bind. simpl. rewrite IH. reflexivity.
Qed.

Lemma request_org_page (o : string) (page : nat) (pageRepos : list GitHubRepoCached)
  (st : State E) (listing : list ApiRepo) (w : World E) :
  repos_getForOrg E o pageSize page (world st) = (inr listing, w) ->
  fetch_page o page true pageRepos st
  = (Returns (true, public_repos listing),
     answered (ReposGetForOrg o pageSize page) w st).
Proof.
  intros H. unfold fetch_page, bind, try_catch, request, call. simpl.
  rewrite H. reflexivity.
Qed.

Lemma fetch_page_returns (o : string) (page : nat) (isOrg : bool)
  (pageRepos : list GitHubRepoCached) (st : State E) :
  exists isOrg' pageRepos' st',
    fetch_page o page isOrg pageRepos st = (Returns (isOrg', pageRepos'), st')
    /\ only_requests st st'
    /\ forall N, listing_finite E N -> N <= page -> pageRepos' = [].
Proof.
  unfold fetch_page, bind, try_catch, request, call, only_requests.
  destruct isOrg; simpl.
  - destruct (repos_getForOrg E o pageSize page (world st))
      as [[e|l] w] eqn:Horg; simpl.
    + destruct (repos_getForUser E o pageSize page w)
        as [[e'|l] w'] eqn:Huser; simpl.
      * do 3 eexists. split; [reflexivity|]. split; [tauto|]. reflexivity.
      * do 3 eexists. split; [reflexivity|]. split; [tauto|].
        intros N HN Hp. exact (proj2 (HN o pageSize page w w' l Hp) Huser).
    + do 3 eexists. split; [reflexivity|]. split; [tauto|].
      intros N HN Hp.
      exact (proj1 (HN o pageSize page (world st) w l Hp) Horg).
  - destruct (repos_getForUser E o pageSize page (world st))
      as [[e'|l] w'] eqn:Huser; simpl.
    + do 3 eexists. split; [reflexivity|]. split; [tauto|]. reflexivity.
    + do 3 eexists. split; [reflexivity|]. split; [tauto|].
      intros N HN Hp.
      exact (proj2 (HN o pageSize page (world st) w' l Hp) Huser).
Qed.

(** When the listing is finite, the loop ends, given fuel for the pages up
    to the first empty one; it writes nothing to the console and creates
    no object. *)
Lemma getOwnerRepos_loop_returns (N fuel : nat) (o : string)
  (allRepos pageRepos : list GitHubRepoCached) (page : nat) (isOrg : bool)
  (st : State E) :
  listing_finite E N -> N - page < fuel ->
  exists repos st',
    getOwnerRepos_loop fuel o allRepos pageRepos page isOrg st
    = (Returns repos, st')
    /\ console st' = console st /\ next_addr st' = next_addr st.
Proof.
  intros HN. revert allRepos pageRepos page isOrg st.
  induction fuel as [|fuel IH]; intros allRepos pageRepos page isOrg st Hf;
    [lia|].
  simpl.
  destruct (fetch_page_returns o page isOrg pageRepos st)
    as (isOrg' & pageRepos' & st1 & Hfetch & (_ & _ & Hc & Ha) & Hempty).
  rewrite (bind_returns _ _ _ _ _ Hfetch).
  rewrite (bind_returns _ _ _ _ _ (cache_page_spec pageRepos' st1)).
  destruct (0 <? length pageRepos')%nat eqn:Hlen.
  - assert (Hp : page < N).
    { destruct (le_lt_dec N page) as [Hle|]; [|assumption].
      rewrite (Hempty N HN Hle) in Hlen. discriminate. }
    destruct (IH (allRepos ++ pageRepos')%list pageRepos' (S page) isOrg'
                (cached pageRepos' st1)) as (repos & st2 & Hloop & Hc2 & Ha2);
      [lia|].
    exists repos, st2. split; [exact Hloop|].
    simpl in Hc2, Ha2. split; congruence.
  - do 2 eexists. split; [reflexivity|]. simpl. split; assumption.
Qed.

Lemma getOwnerRepos_never_throws (fuel : nat) (o : string)
  (allRepos pageRepos : list GitHubRepoCached) (page : nat) (isOrg : bool)
  (st : State E) (e : Exn) :
  fst (getOwnerRepos_loop fuel o allRepos pageRepos page isOrg st) <> Throws e.
Proof.
  revert allRepos pageRepos page isOrg st.
  induction fuel as [|fuel IH]; intros; simpl; [discriminate|].
  destruct (fetch_page_returns o page isOrg pageRepos st)
    as (isOrg' & pageRepos' & st1 & Hfetch & _).
  rewrite (bind_returns _ _ _ _ _ Hfetch).
  rewrite (bind_returns _ _ _ _ _ (cache_page_spec pageRepos' st1)).
  destruct (0 <? length pageRepos')%nat; [apply IH | discriminate].
Qed.

(** The loop writes nothing to the console and creates no object. *)
Lemma getOwnerRepos_loop_frame (fuel : nat) (o : string)
  (allRepos pageRepos : list GitHubRepoCached) (page : nat) (isOrg : bool)
  (st : State E) :
  console (snd (getOwnerRepos_loop fuel o allRepos pageRepos page isOrg st))
  = console st
  /\ next_addr (snd (getOwnerRepos_loop fuel o allRepos pageRepos page isOrg st))
     = next_addr st.
Proof.
  revert allRepos pageRepos page isOrg st.
  induction fuel as [|fuel IH]; intros; simpl; [split; reflexivity|].
  destruct (fetch_page_returns o page isOrg pageRepos st)
    as (isOrg' & pageRepos' & st1 & Hfetch & (_ & _ & Hc & Ha) & _).
  rewrite (bind_returns _ _ _ _ _ Hfetch).
  rewrite (bind_returns _ _ _ _ _ (cache_page_spec pageRepos' st1)).
  destruct (0 <? length pageRepos')%nat.
  - destruct (IH (allRepos ++ pageRepos')%list pageRepos' (S page) isOrg'
                (cached pageRepos' st1)) as (H1 & H2).
    rewrite H1, H2. simpl. split; assumption.
  - simpl. split; assumption.
Qed.

(** When the answers of the listings do not depend on the world, neither
    does what the loop returns. *)
Lemma fetch_page_stateless (o : string) (page : nat) (isOrg : bool)
  (pageRepos : list GitHubRepoCached) (st st' : State E) :
  stateless_listing E ->
  fst (fetch_page o page isOrg pageRepos st)
  = fst (fetch_page o page isOrg pageRepos st').
Proof.
  intros H. unfold fetch_page, bind, try_catch, request, call.
  destruct isOrg; simpl.
  - pose proof (proj1 (H o pageSize page (world st) (world st'))) as Ho.
    destruct (repos_getForOrg E o pageSize page (world st)) as [[e|l] w],
             (repos_getForOrg E o pageSize page (world st')) as [[e'|l'] w'];
      simpl in Ho; try discriminate; simpl.
    + pose proof (proj2 (H o pageSize page w w')) as Hu.
      destruct (repos_getForUser E o pageSize page w) as [[e1|l1] w1],
               (repos_getForUser E o pageSize page w') as [[e2|l2] w2];
        simpl in Hu; try discriminate; simpl; congruence.
    + congruence.
  - pose proof (proj2 (H o pageSize page (world st) (world st'))) as Hu.
    destruct (repos_getForUser E o pageSize page (world st)) as [[e1|l1] w1],
             (repos_getForUser E o pageSize page (world st')) as [[e2|l2] w2];
      simpl in Hu; try discriminate; simpl; congruence.
Qed.

Lemma getOwnerRepos_loop_stateless (fuel : nat) (o : string)
  (allRepos pageRepos : list GitHubRepoCached) (page : nat) (isOrg : bool)
  (st st' : State E) :
  stateless_listing E ->
  fst (getOwnerRepos_loop fuel o allRepos pageRepos page isOrg st)
  = fst (getOwnerRepos_loop fuel o allRepos pageRepos page isOrg st').
Proof.
  intros H. revert allRepos pageRepos page isOrg st st'.
  induction fuel as [|fuel IH]; intros; simpl; [reflexivity|].
  destruct (fetch_page_returns o page isOrg pageRepos st)
    as (i1 & p1 & s1 & Hf1 & _).
  destruct (fetch_page_returns o page isOrg pageRepos st')
    as (i2 & p2 & s2 & Hf2 & _).
  pose proof (fetch_page_stateless o page isOrg pageRepos st st' H) as Heq.
  rewrite Hf1, Hf2 in Heq. simpl in Heq. injection Heq as -> ->.
  rewrite (bind_returns _ _ _ _ _ Hf1), (bind_returns _ _ _ _ _ Hf2).
  rewrite (bind_returns _ _ _ _ _ (cache_page_spec p2 s1)).
  rewrite (bind_returns _ _ _ _ _ (cache_page_spec p2 s2)).
  destruct (0 <? length p2)%nat; [apply IH | reflexivity].
Qed.

End Listing.

(** ** GitHubConnection: expanding patterns *)

Section Expansion.
Context {E : Env}.

Lemma Set_add_new {A : Type} (n : nat) (v : A) (all : list (Object A)) :
  Forall (fun o => addr o < n) all ->
  Set_add same_object (mkObject n v) all = (all ++ [mkObject n v])%list.
Proof.
  intros H. unfold Set_add.
  replace (existsb (same_object (mkObject n v)) all) with false; [reflexivity|].
  symmetry. apply not_true_is_false. intros Hex.
  apply existsb_exists in Hex as (o & Ho & Hsame).
  rewrite Forall_forall in H. unfold same_object in Hsame. simpl in Hsame.
  apply Nat.eqb_eq in Hsame. specialize (H o (proj2 (list_elem_of_In _ _) Ho)).
  lia.
Qed.

Lemma allocated_snoc {A : Type} (st : State E) (v : A)
  (all : list (Object A)) :
  allocated st all ->
  allocated (grown 1 st) (all ++ [mkObject (next_addr st) v]).
Proof.
  unfold allocated. intros H. apply Forall_app. split.
  - eapply Forall_impl; [exact H|]. simpl. intros; lia.
  - constructor; [simpl; lia | constructor].
Qed.

Lemma new_object_spec {A : Type} (v : A) (st : State E) :
  new_object v st = (Returns (mkObject (next_addr st) v), grown 1 st).
Proof. unfold new_object, grown. now rewrite Nat.add_1_r. Qed.

Lemma grown_grown (n m : nat) (st : State E) :
  grown m (grown n st) = grown (n + m) st.
Proof. unfold grown. simpl. now rewrite Nat.add_assoc. Qed.

Lemma grown_logged (n : nat) (l : list LogEntry) (st : State E) :
  grown n (logged l st) = logged l (grown n st).
Proof. reflexivity. Qed.

Lemma grown_0 (st : State E) : grown 0 st = st.
Proof. destruct st. unfold grown. simpl. now rewrite Nat.add_0_r. Qed.

(** The loop over the patterns, when every pattern that is parsed parses:
    a warning for each pattern without '/', a new reference for each
    occurrence of a parsed pattern, appended to the set. *)
Lemma expand_loop_spec (pats : list string)
  (all : list (Object GitHubRepoReference)) (owners : list string)
  (st : State E) :
  allocated st all ->
  Forall (fun p => is_direct p = true -> parses p = true) pats ->
  exists objs,
    expand_loop pats all owners st
    = (Returns ((all ++ objs)%list, owners_of pats owners),
       grown (length objs) (logged (warnings pats) st))
    /\ map val objs = direct_references pats
    /\ allocated (grown (length objs) st) (all ++ objs).
Proof.
  revert all owners st.
  induction pats as [|p pats IH]; intros all owners st Hall Hok.
  - exists []. simpl. rewrite app_nil_r.
    unfold warnings. simpl. rewrite logged_nil, !grown_0. auto.
  - inversion Hok as [|? ? Hp Hrest]; subst. simpl.
    unfold direct_references, warnings, owners_of, is_direct, is_wildcard.
    simpl. destruct (JS.includes "/" p) eqn:Hslash; simpl.
    + destruct (JS.includes "*" p) eqn:Hstar; simpl.
      * destruct (IH all (Set_add String.eqb p owners) st Hall Hrest)
          as (objs & Hrun & Hval & Halloc).
        exists objs. rewrite Hrun. auto.
      * unfold is_direct, parses in Hp. rewrite Hslash, Hstar in Hp.
        specialize (Hp eq_refl).
        destruct (fullNameToGithubRepoReference p) as [e|reference];
          [discriminate|].
        rewrite (bind_returns (of_sum (inr reference)) _ st st reference eq_refl).
        rewrite (bind_returns _ _ _ _ _ (new_object_spec reference st)).
        rewrite (Set_add_new _ _ _ Hall).
        destruct (IH _ owners _ (allocated_snoc st reference all Hall) Hrest)
          as (objs & Hrun & Hval & Halloc).
        exists (mkObject (next_addr st) reference :: objs).
        rewrite Hrun, <- app_assoc. simpl.
        rewrite grown_grown in Halloc. rewrite <- grown_logged, grown_grown.
        split; [reflexivity|]. split; [f_equal; exact Hval|].
        rewrite <- app_assoc in Halloc. exact Halloc.
    + rewrite (bind_returns _ _ st (logged [warning p] st) tt eq_refl).
      assert (Hall' : allocated (logged [warning p] st) all) by exact Hall.
      destruct (IH all owners _ Hall' Hrest) as (objs & Hrun & Hval & Halloc).
      exists objs. rewrite Hrun, logged_logged. auto.
Qed.

(** The loop over the patterns throws at the first parsed pattern that does
    not parse. *)
Lemma expand_loop_throws (pats : list string)
  (all : list (Object GitHubRepoReference)) (owners : list string)
  (st : State E) :
  Exists (fun p => is_direct p = true /\ parses p = false) pats ->
  exists p e,
    In p pats /\ is_direct p = true
    /\ fullNameToGithubRepoReference p = inl e
    /\ fst (expand_loop pats all owners st) = Throws e.
Proof.
  revert all owners st.
  induction pats as [|p pats IH]; intros all owners st Hex;
    [inversion Hex|].
  assert (Hcase : (is_direct p = true /\ parses p = false)
                  \/ ((is_direct p = true -> parses p = true)
                      /\ Exists (fun p => is_direct p = true
                                          /\ parses p = false) pats)).
  { destruct (is_direct p) eqn:Hd, (parses p) eqn:Hp; auto;
      inversion Hex as [? ? [? ?]|]; subst; auto; try congruence. }
  simpl. destruct Hcase as [[Hd Hp]|[Hp Hrest]].
  - unfold is_direct in Hd. apply andb_true_iff in Hd as [Hslash Hstar].
    apply negb_true_iff in Hstar. rewrite Hslash, Hstar. simpl.
    unfold parses in Hp.
    destruct (fullNameToGithubRepoReference p) as [e|reference] eqn:Hparse;
      [|discriminate].
    exists p, e. unfold is_direct. rewrite Hslash, Hstar. auto.
  - assert (Hnext : forall all' owners' (st' : State E),
              exists q e, In q (p :: pats) /\ is_direct q = true
                /\ fullNameToGithubRepoReference q = inl e
                /\ fst (expand_loop pats all' owners' st') = Throws e).
    { intros. destruct (IH all' owners' st' Hrest) as (q & e & ? & ? & ? & ?).
      exists q, e. simpl. auto. }
    destruct (JS.includes "/" p) eqn:Hslash; simpl.
    + destruct (JS.includes "*" p) eqn:Hstar; simpl; [apply Hnext|].
      unfold is_direct, parses in Hp. rewrite Hslash, Hstar in Hp.
      specialize (Hp eq_refl).
      destruct (fullNameToGithubRepoReference p) as [e|reference];
        [discriminate|].
      rewrite (bind_returns (of_sum (inr reference)) _ st st reference eq_refl).
      rewrite (bind_returns _ _ _ _ _ (new_object_spec reference st)).
      apply Hnext.
    + rewrite (bind_returns _ _ st (logged [warning p] st) tt eq_refl).
      apply Hnext.
Qed.

End Expansion.

Section Wildcards.
Context {E : Env}.

Lemma add_owner_repos_spec (r : option string) (l : list GitHubRepoCached)
  (all : list (Object GitHubRepoReference)) (st : State E) :
  allocated st all ->
  exists objs,
    add_owner_repos r l all st
    = (Returns (all ++ objs)%list, grown (length l) st)
    /\ map val objs = map (expanded_reference r) l
    /\ allocated (grown (length l) st) (all ++ objs).
Proof.
  revert all st. induction l as [|c l IH]; intros all st Hall.
  - exists []. simpl. rewrite app_nil_r, !grown_0. auto.
  - simpl.
    rewrite (bind_returns _ _ _ _ _
               (new_object_spec
                  {| ref_owner := cached_owner c;
                     ref_name := cached_name c;
                     ref_fullName := cached_fullName c;
                     ref_ref := Some (JS.or_else r (cached_defaultBranch c)) |}
                  st)).
    rewrite (Set_add_new _ _ _ Hall).
    destruct (IH _ _ (allocated_snoc st (expanded_reference r c) all Hall))
      as (objs & Hrun & Hval & Halloc).
    exists (mkObject (next_addr st) (expanded_reference r c) :: objs).
    unfold expanded_reference at 1 in Hrun. rewrite Hrun.
    rewrite grown_grown, <- app_assoc in *. simpl.
    split; [reflexivity|]. split; [f_equal; exact Hval | exact Halloc].
Qed.

(** One wildcard pattern, once its owner is listed: the references of the
    listed repositories come after those already in the set. *)
Lemma lookup_owner_spec (fuel : nat) (pattern : string)
  (all : list (Object GitHubRepoReference)) (st st1 : State E)
  (repos : list GitHubRepoCached) :
  allocated st all ->
  getOwnerRepos fuel (wildcard_owner pattern) st = (Returns repos, st1) ->
  exists objs,
    lookup_owner fuel pattern all st
    = (Returns (all ++ objs)%list,
       grown (length repos)
         (logged [LogOwnerRepos "AHHH" (wildcard_owner pattern) repos] st1))
    /\ map val objs = map (expanded_reference (wildcard_ref pattern)) repos
    /\ allocated
         (grown (length repos)
            (logged [LogOwnerRepos "AHHH" (wildcard_owner pattern) repos] st1))
         (all ++ objs).
Proof.
  intros Hall Hlist. unfold lookup_owner. cbv zeta.
  change (JS.toLowerCase (JS.substring_to_indexOf "/" pattern))
    with (wildcard_owner pattern).
  change (if JS.includes "#" pattern
          then Some (JS.substring_after_indexOf "#" pattern) else None)
    with (wildcard_ref pattern).
  rewrite (bind_returns _ _ _ _ _ Hlist).
  set (entry := LogOwnerRepos "AHHH" (wildcard_owner pattern) repos).
  rewrite (bind_returns (console_log entry) _ st1 (logged [entry] st1) tt
             eq_refl).
  assert (Hall1 : allocated (logged [entry] st1) all).
  { pose proof (getOwnerRepos_loop_frame fuel (wildcard_owner pattern)
                  [] [] 0 true st) as (_ & Ha).
    unfold getOwnerRepos in Hlist. rewrite Hlist in Ha. simpl in Ha.
    unfold allocated in *. simpl. now rewrite Ha. }
  destruct (add_owner_repos_spec (wildcard_ref pattern) repos all _ Hall1)
    as (objs & Hrun & Hval & Halloc).
  exists objs. split; [exact Hrun|]. split; assumption.
Qed.

(** The wildcard patterns, on a finite listing: every lookup returns, and
    the references it adds come after those already in the set; when the
    answers of the listings do not depend on the world, these are the
    expansions of the patterns. *)
Lemma lookup_owners_spec (N fuel : nat) (owners : list string)
  (all : list (Object GitHubRepoReference)) (st st0 : State E) :
  listing_finite E N -> N < fuel -> allocated st all ->
  exists objs st',
    lookup_owners fuel owners all st = (Returns (all ++ objs)%list, st')
    /\ (exists more, console st' = (console st ++ more)%list)
    /\ (stateless_listing E ->
        map val objs = concat (map (expansion fuel st0) owners)).
Proof.
  intros HN Hfuel. revert all st.
  induction owners as [|p owners IH]; intros all st Hall; simpl.
  - exists [], st. rewrite app_nil_r. split; [reflexivity|].
    split; [exists []; now rewrite app_nil_r | reflexivity].
  - destruct (getOwnerRepos_loop_returns N fuel (wildcard_owner p)
                [] [] 0 true st HN ltac:(lia))
      as (repos & st1 & Hloop & Hc1 & _).
    destruct (lookup_owner_spec fuel p all st st1 repos Hall Hloop)
      as (objs & Hrun & Hval & Halloc).
    rewrite (bind_returns _ _ _ _ _ Hrun).
    destruct (IH _ _ Halloc) as (objs' & st2 & Hrun' & (more & Hc) & Hpure).
    exists (objs ++ objs')%list, st2. rewrite Hrun', app_assoc.
    split; [reflexivity|]. split.
    + exists (LogOwnerRepos "AHHH" (wildcard_owner p) repos :: more).
      rewrite Hc. simpl. rewrite Hc1, <- app_assoc. reflexivity.
    + intros Hs. rewrite map_app, Hval, (Hpure Hs). f_equal.
      unfold expansion, getOwnerRepos.
      rewrite (getOwnerRepos_loop_stateless fuel (wildcard_owner p)
                 [] [] 0 true st0 st Hs), Hloop.
      reflexivity.
Qed.

Lemma owners_of_nil (pats : list string) :
  List.filter is_wildcard pats = [] -> owners_of pats [] = [].
Proof. unfold owners_of. now intros ->. Qed.

Lemma in_warnings (pats : list string) (p : string) :
  In p pats -> JS.includes "/" p = false -> In (warning p) (warnings pats).
Proof.
  intros Hin Hp. unfold warnings. apply in_map. apply filter_In.
  split; [exact Hin | now rewrite Hp].
Qed.

Lemma add_owner_repos_returns (r : option string) (l : list GitHubRepoCached)
  (all : list (Object GitHubRepoReference)) (st : State E) :
  exists all' st', add_owner_repos r l all st = (Returns all', st').
Proof.
  revert all st. induction l as [|c l IH]; intros all st; simpl.
  - eauto.
  - unfold bind at 1. simpl. apply IH.
Qed.

Lemma lookup_owners_never_throws (fuel : nat) (owners : list string)
  (all : list (Object GitHubRepoReference)) (st : State E) (e : Exn) :
  fst (lookup_owners fuel owners all st) <> Throws e.
Proof.
  revert all st. induction owners as [|p owners IH]; intros all st; simpl;
    [discriminate|].
  unfold bind at 1, lookup_owner, bind at 1, getOwnerRepos.
  pose proof (getOwnerRepos_never_throws fuel
                (JS.toLowerCase (JS.substring_to_indexOf "/" p))
                [] [] 0 true st) as Hlist.
  destruct (getOwnerRepos_loop fuel
              (JS.toLowerCase (JS.substring_to_indexOf "/" p)) [] [] 0 true st)
    as [[repos|e'|] st1]; simpl in *;
    [|now contradiction (Hlist e')|discriminate].
  unfold bind at 1. simpl.
  match goal with
  | |- context [add_owner_repos ?r ?l ?a ?s] =>
      destruct (add_owner_repos_returns r l a s) as (all' & st2 & Hadd);
      rewrite Hadd
  end.
  apply IH.
Qed.

(** The patterns to look up are one pattern: the call returns the
    references of the parsed patterns, then those of the listing of its
    owner. *)
Lemma expand_one_owner (fuel : nat) (pats : list string) (p : string)
  (st st1 : State E) (repos : list GitHubRepoCached) :
  Forall (fun p => is_direct p = true -> parses p = true) pats ->
  owners_of pats [] = [p] ->
  getOwnerRepos fuel (wildcard_owner p)
    (grown (length (direct_references pats)) (logged (warnings pats) st))
  = (Returns repos, st1) ->
  expandRepoPatterns fuel pats st
  = (Returns (direct_references pats
              ++ map (expanded_reference (wildcard_ref p)) repos)%list,
     grown (length repos)
       (logged [LogOwnerRepos "AHHH" (wildcard_owner p) repos] st1)).
Proof.
  intros Hok Hown Hlist.
  destruct (expand_loop_spec pats [] [] st ltac:(constructor) Hok)
    as (objs & Hrun & Hval & Halloc).
  unfold expandRepoPatterns. rewrite (bind_returns _ _ _ _ _ Hrun).
  simpl app in *. cbv beta iota.
  change ([] ++ objs)%list with objs.
  assert (Hlen : length objs = length (direct_references pats))
    by (now rewrite <- Hval, length_map).
  rewrite Hown, Hlen in *. change (length [p] =? 0)%nat with false. cbv iota.
  assert (Halloc' : allocated
            (grown (length (direct_references pats))
               (logged (warnings pats) st)) objs)
    by exact Halloc.
  destruct (lookup_owner_spec fuel p objs _ st1 repos Halloc' Hlist)
    as (objs' & Hlook & Hval' & _).
  change (lookup_owners fuel [p] objs)
    with (bind (lookup_owner (E:=E) fuel p objs)
            (fun all => lookup_owners fuel [] all)).
  unfold bind. rewrite Hlook. simpl. unfold ret.
  now rewrite map_app, Hval, Hval'.
Qed.

(** C1. [expandRepoPatterns] parses every pattern with a '/' and without
    '*'.  If one of them does not parse (more than one '#', or not exactly
    one '/' before the '#'), the call throws the parse error of such a
    pattern.  If all of them parse, the call never throws; the patterns
    without '/' are skipped, with a warning for each; without wildcard
    patterns the call returns the references of the parsed patterns and
    changes nothing but the console; with one wildcard pattern, given once
    or more, it returns these references followed by one reference for
    each repository that [getOwnerRepos] returns for the owner of the
    pattern, in the order of the listing; with any wildcard patterns it
    returns, given a finite listing and the fuel for it, the references of
    the parsed patterns followed by those of the expansions, which are,
    when the answers of the listings do not depend on the moment of the
    request, the expansions of the wildcard patterns, pattern by pattern,
    the patterns taken in some order. *)
Theorem expandRepoPatterns_skips_slashless (N fuel : nat)
  (pats : list string) (st : State E) :
  (Exists (fun p => is_direct p = true /\ parses p = false) pats ->
   exists p e,
     In p pats /\ is_direct p = true
     /\ fullNameToGithubRepoReference p = inl e
     /\ fst (expandRepoPatterns fuel pats st) = Throws e)
  /\ (Forall (fun p => is_direct p = true -> parses p = true) pats ->
      (forall e, fst (expandRepoPatterns fuel pats st) <> Throws e)
      /\ (List.filter is_wildcard pats = [] ->
          expandRepoPatterns fuel pats st
          = (Returns (direct_references pats),
             grown (length (direct_references pats))
               (logged (warnings pats) st)))
      /\ (forall p repos st1,
            owners_of pats [] = [p] ->
            getOwnerRepos fuel (wildcard_owner p)
              (grown (length (direct_references pats))
                 (logged (warnings pats) st))
            = (Returns repos, st1) ->
            expandRepoPatterns fuel pats st
            = (Returns (direct_references pats
                        ++ map (expanded_reference (wildcard_ref p)) repos)%list,
               grown (length repos)
                 (logged [LogOwnerRepos "AHHH" (wildcard_owner p) repos]
                    st1)))
      /\ (listing_finite E N -> N < fuel ->
          exists expanded st',
            expandRepoPatterns fuel pats st
            = (Returns (direct_references pats ++ expanded)%list, st')
            /\ (forall p, In p pats -> JS.includes "/" p = false ->
                  In (warning p) (console st'))
            /\ (stateless_listing E ->
                exists order,
                  Permutation order (owners_of pats [])
                  /\ expanded = concat (map (expansion fuel st) order)))).
Proof.
  split.
  - intros Hex.
    destruct (expand_loop_throws pats [] [] st Hex) as (p & e & ? & ? & ? & Ht).
    exists p, e. repeat split; try assumption.
    unfold expandRepoPatterns, bind.
    destruct (expand_loop pats [] [] st) as [[x|e'|] st1]; simpl in *;
      congruence.
  - intros Hok. split; [|split; [|split]].
    + destruct (expand_loop_spec pats [] [] st ltac:(constructor) Hok)
        as (objs & Hrun & Hval & Halloc).
      unfold expandRepoPatterns. rewrite (bind_returns _ _ _ _ _ Hrun).
      cbv beta iota.
      intros e. destruct (length (owners_of pats []) =? 0)%nat;
        [discriminate|].
      unfold bind.
      match goal with
      | |- context [lookup_owners fuel ?o ?a ?s] =>
          pose proof (lookup_owners_never_throws fuel o a s) as Hl;
          destruct (lookup_owners fuel o a s) as [[all|e'|] st2]
      end; simpl in *;
        [discriminate | now contradiction (Hl e') | discriminate].
    + intros Hnone.
      destruct (expand_loop_spec pats [] [] st ltac:(constructor) Hok)
        as (objs & Hrun & Hval & Halloc).
      unfold expandRepoPatterns. rewrite (bind_returns _ _ _ _ _ Hrun).
      cbv beta iota. change ([] ++ objs)%list with objs.
      assert (Hlen : length objs = length (direct_references pats))
        by (now rewrite <- Hval, length_map).
      rewrite (owners_of_nil _ Hnone). simpl.
      unfold ret. now rewrite Hval, Hlen.
    + intros p repos st1 Hown Hlist.
      exact (expand_one_owner fuel pats p st st1 repos Hok Hown Hlist).
    + intros HN Hfuel.
      destruct (expand_loop_spec pats [] [] st ltac:(constructor) Hok)
        as (objs & Hrun & Hval & Halloc).
      unfold expandRepoPatterns. rewrite (bind_returns _ _ _ _ _ Hrun).
      cbv beta iota. change ([] ++ objs)%list with objs.
      destruct (length (owners_of pats []) =? 0)%nat eqn:Hsize.
      * exists [], (grown (length objs) (logged (warnings pats) st)).
        rewrite app_nil_r, Hval. split; [reflexivity|]. split.
        -- intros p Hin Hp. simpl. apply in_or_app. right.
           now apply in_warnings.
        -- intros _. exists []. apply Nat.eqb_eq in Hsize.
           destruct (owners_of pats []); [|discriminate].
           split; [constructor | reflexivity].
      * assert (Halloc' : allocated
                  (grown (length objs) (logged (warnings pats) st)) objs)
          by exact Halloc.
        destruct (lookup_owners_spec N fuel (owners_of pats []) objs _ st
                    HN Hfuel Halloc')
          as (objs' & st2 & Hlook & (more & Hc) & Hpure).
        rewrite (bind_returns _ _ _ _ _ Hlook).
        exists (map val objs'), st2. rewrite map_app, Hval.
        split; [reflexivity|]. split.
        -- intros p Hin Hp. rewrite Hc. simpl. apply in_or_app. left.
           apply in_or_app. right. now apply in_warnings.
        -- intros Hs. exists (owners_of pats []).
           split; [reflexivity | exact (Hpure Hs)].
Qed.

End Wildcards.

(** ** GitHubConnection: the pages of an organization *)

Section OrgWildcard.
Context {E : Env}.


(** One turn of the loop. *)
Lemma getOwnerRepos_loop_step (fuel : nat) (o : string)
  (allRepos pageRepos pageRepos' : list GitHubRepoCached) (page : nat)
  (isOrg isOrg' : bool) (st st1 : State E) :
  fetch_page o page isOrg pageRepos st = (Returns (isOrg', pageRepos'), st1) ->
  getOwnerRepos_loop (S fuel) o allRepos pageRepos page isOrg st
  = if (0 <? length pageRepos')%nat then
      getOwnerRepos_loop fuel o (allRepos ++ pageRepos')%list pageRepos'
        (S page) isOrg' (cached pageRepos' st1)
    else (Returns (allRepos ++ pageRepos')%list, cached pageRepos' st1).
Proof.
  intros H. simpl. rewrite (bind_returns _ _ _ _ _ H).
  rewrite (bind_returns _ _ _ _ _ (cache_page_spec pageRepos' st1)).
  destruct (0 <? length pageRepos')%nat; reflexivity.
Qed.




End OrgWildcard.

(** ** Workspace: [run] *)

Section Run.
Context {E : Env}.
Variable fn : Object WorkspaceRepo -> World E -> (Exn + unit) * World E.

Lemma Map_set_new {V : Type} (k : Object WorkspaceRepo) (v : V)
  (m : list (Object WorkspaceRepo * V)) :
  ~ In (addr k) (map (fun kv => addr (fst kv)) m) ->
  Map_set same_object k v m = (m ++ [(k, v)])%list.
Proof.
  induction m as [|[k' v'] m IH]; simpl; intros Hk; [reflexivity|].
  unfold same_object at 1.
  destruct (Nat.eqb_spec (addr k) (addr k')) as [Heq|_];
    [exfalso; apply Hk; left; now symmetry|].
  rewrite IH by (intros H; apply Hk; right; exact H). reflexivity.
Qed.

Lemma in_world_same (st : State E) : in_world (world st) st = st.
Proof. destruct st. reflexivity. Qed.

Lemma run_outcomes_repos (repos : list (Object WorkspaceRepo)) (w : World E) :
  map fst (fst (run_outcomes fn repos w)) = repos.
Proof.
  revert w. induction repos as [|r l IH]; intros w; simpl; [reflexivity|].
  destruct (fn r w) as [o w1]. specialize (IH w1).
  destruct (run_outcomes fn l w1) as [os w2]. simpl in *. now rewrite IH.
Qed.

(** The loop of [run] on repositories that are distinct objects, none of
    them a key of [failRuns] yet. *)
Lemma run_loop_spec (repos successRuns : list (Object WorkspaceRepo))
  (failRuns : list (Object WorkspaceRepo * Exn)) (st : State E) :
  List.NoDup (map addr repos) ->
  (forall r, In r repos ->
     ~ In (addr r) (map (fun kv => addr (fst kv)) failRuns)) ->
  run_loop fn repos successRuns failRuns st
  = (Returns ((successRuns ++ succeeded (fst (run_outcomes fn repos (world st))))%list,
              (failRuns ++ failed (fst (run_outcomes fn repos (world st))))%list),
     in_world (snd (run_outcomes fn repos (world st))) st).
Proof.
  revert successRuns failRuns st.
  induction repos as [|r l IH]; intros successRuns failRuns st Hnd Hkeys.
  - simpl. rewrite !app_nil_r, in_world_same. reflexivity.
  - inversion Hnd as [|? ? Hr Hl]; subst. simpl.
    unfold bind at 1, try_catch, bind, call.
    destruct (fn r (world st)) as [[err|[]] w1] eqn:Hfn; simpl.
    + rewrite (Map_set_new r err failRuns) by (apply Hkeys; now left).
      rewrite IH; [|exact Hl|]; simpl.
      * destruct (run_outcomes fn l w1) as [os w2]. cbn.
        rewrite <- !app_assoc. reflexivity.
      * intros r' Hr' Hin. rewrite map_app in Hin.
        apply in_app_or in Hin as [Hin|[Hin|[]]].
        -- apply (Hkeys r'); [now right | exact Hin].
        -- simpl in Hin. apply Hr. rewrite Hin. now apply in_map.
    + rewrite IH; [|exact Hl|]; simpl.
      * destruct (run_outcomes fn l w1) as [os w2]. cbn.
        rewrite <- !app_assoc. reflexivity.
      * intros r' Hr'. apply Hkeys. now right.
Qed.

(** C6. [run] throws the not-initialized error, and does nothing else,
    when [_initializedRepos] is unset.  When it is set, to repositories
    that are distinct objects (as those made by [init] are), [run] never
    throws: [fn] is applied to every repository, one after the other in
    order, whatever the earlier calls did, and [run] returns the
    repositories on which [fn] returned, and the map from each repository
    on which [fn] threw to what it threw.  For two repositories P, on
    which [fn] returns, and Q, on which it throws [err], in either order:
    [[P]] and the map of Q to [err]. *)
Theorem run_partitions (st : State E) :
  (_initializedRepos st = None -> run fn st = (Throws not_initialized, st))
  /\ (forall repos,
        _initializedRepos st = Some repos -> List.NoDup (map addr repos) ->
        run fn st
        = (Returns (succeeded (fst (run_outcomes fn repos (world st))),
                    failed (fst (run_outcomes fn repos (world st)))),
           in_world (snd (run_outcomes fn repos (world st))) st)
        /\ map fst (fst (run_outcomes fn repos (world st))) = repos)
  /\ (forall P Q err,
        _initializedRepos st = Some [P; Q]
        \/ _initializedRepos st = Some [Q; P] ->
        addr P <> addr Q ->
        (forall w, fst (fn P w) = inr tt) ->
        (forall w, fst (fn Q w) = inl err) ->
        fst (run fn st) = Returns ([P], [(Q, err)])).
Proof.
  assert (Hrun : forall repos,
            _initializedRepos st = Some repos -> List.NoDup (map addr repos) ->
            run fn st
            = (Returns (succeeded (fst (run_outcomes fn repos (world st))),
                        failed (fst (run_outcomes fn repos (world st)))),
               in_world (snd (run_outcomes fn repos (world st))) st)).
  { intros repos Hsome Hnd. unfold run. rewrite Hsome.
    rewrite run_loop_spec; [reflexivity | exact Hnd | intros r _ []]. }
  split; [|split].
  - intros Hnone. unfold run. rewrite Hnone. reflexivity.
  - intros repos Hsome Hnd. split; [now apply Hrun | apply run_outcomes_repos].
  - intros P Q err Hrepos Hne HP HQ.
    destruct Hrepos as [Hsome|Hsome].
    + rewrite (Hrun _ Hsome)
        by (repeat constructor; simpl; intuition congruence).
      simpl. specialize (HP (world st)).
      destruct (fn P (world st)) as [oP w1]. simpl in HP. subst oP.
      specialize (HQ w1). destruct (fn Q w1) as [oQ w2]. simpl in HQ. subst oQ.
      reflexivity.
    + rewrite (Hrun _ Hsome)
        by (repeat constructor; simpl; intuition congruence).
      simpl. specialize (HQ (world st)).
      destruct (fn Q (world st)) as [oQ w1]. simpl in HQ. subst oQ.
      specialize (HP w1). destruct (fn P w1) as [oP w2]. simpl in HP. subst oP.
      reflexivity.
Qed.

End Run.

(** ** Workspace: the repositories that [init] records are distinct objects *)

Section Opened.
Context {E : Env}.
Variable this_dir : string.

Lemma for_each_open (repos : list GitHubRepo) (st : State E) :
  exists objs,
    for_each (_openWorkspaceRepo this_dir) repos st
    = (Returns objs, grown (length repos) st)
    /\ map addr objs = seq (next_addr st) (length repos).
Proof.
  revert st. induction repos as [|r l IH]; intros st; simpl.
  - exists []. rewrite grown_0. auto.
  - unfold _openWorkspaceRepo at 1.
    rewrite (bind_returns _ _ _ _ _ (new_object_spec _ st)).
    destruct (IH (grown 1 st)) as (objs & Hrun & Haddr).
    rewrite (bind_returns _ _ _ _ _ Hrun), grown_grown.
    eexists. split; [reflexivity|]. simpl. f_equal.
    rewrite Haddr. simpl. now rewrite Nat.add_1_r.
Qed.

Lemma init_returns_distinct (fuel : nat) (patterns : Patterns)
  (options : WorkspaceInitOptions) (st st' : State E)
  (repos : list (Object WorkspaceRepo)) :
  init this_dir fuel patterns options st = (Returns repos, st') ->
  List.NoDup (map addr repos).
Proof.
  unfold init. intros H.
  apply bind_inv in H as (? & s1 & _ & H).
  apply bind_inv in H as (githubRepos & s2 & _ & H).
  apply bind_inv in H as (workspaceRepos & s3 & Hopen & H).
  apply bind_inv in H as (? & s4 & _ & H).
  apply bind_inv in H as (? & s5 & _ & H).
  apply bind_inv in H as (? & s6 & _ & H).
  apply bind_inv in H as (? & s7 & _ & H).
  apply bind_inv in H as (? & s8 & _ & H).
  injection H as <- _.
  destruct (for_each_open githubRepos s2) as (objs & Hrun & Haddr).
  rewrite Hrun in Hopen. injection Hopen as <- _.
  rewrite Haddr. apply List.seq_NoDup.
Qed.

(** After [init] has returned, [run] returns the repositories on which
    [fn] returned and the failures of the others. *)
Lemma run_after_init (fuel : nat) (patterns : Patterns)
  (options : WorkspaceInitOptions) (st st' : State E)
  (repos : list (Object WorkspaceRepo))
  (fn : Object WorkspaceRepo -> World E -> (Exn + unit) * World E) :
  init this_dir fuel patterns options st = (Returns repos, st') ->
  fst (run fn st')
  = Returns (succeeded (fst (run_outcomes fn repos (world st'))),
             failed (fst (run_outcomes fn repos (world st')))).
Proof.
  intros H. unfold run.
  pose proof (init_recorded this_dir fuel patterns options st) as R.
  rewrite H in R. simpl in R. rewrite R.
  rewrite run_loop_spec;
    [reflexivity | eapply init_returns_distinct; eassumption | intros r _ []].
Qed.

End Opened.

(** ** The code run in the small world *)

Lemma demo_listing_finite : listing_finite Demo.env 1.
Proof.
  intros o per_page page w w' l Hpage. simpl.
  unfold Demo.getForOrg, Demo.getForUser. split.
  - destruct (String.eqb o "org"); [|discriminate].
    destruct page as [|page]; [lia|]. now intros [= <- _].
  - discriminate.
Qed.

(** C1, as stated, fails on a pattern with two '#': the pattern is not
    skipped and no warning is written, the call throws. *)
Lemma two_hashes_fail_the_call :
  fst (expandRepoPatterns 5 ["org/a"; "a/b#c#d"] Demo.start)
  = Throws (Error "Repo 'a/b#c#d' is not in form user/repo or user/repo#ref")
  /\ console (snd (expandRepoPatterns 5 ["org/a"; "a/b#c#d"] Demo.start)) = [].
Proof. vm_compute. split; reflexivity. Qed.

Lemma demo_stateless_listing : stateless_listing Demo.env.
Proof. intros o per_page page [] []. split; reflexivity. Qed.

Lemma expandRepoPatterns_skips_slashless_witness :
  (exists p e,
     In p ["org/a"; "a/b#c#d"] /\ is_direct p = true
     /\ fullNameToGithubRepoReference p = inl e
     /\ fst (expandRepoPatterns 5 ["org/a"; "a/b#c#d"] Demo.start) = Throws e)
  /\ fst (expandRepoPatterns 5 ["nope"; "org/a#v2"; "org/*"] Demo.start)
     = Returns [mkReference "org" "a" "org/a" (Some "v2");
                mkReference "org" "a" "org/a" (Some "master");
                mkReference "org" "b" "org/b" (Some "master")]
  /\ (exists order st',
        Permutation order ["org/*"]
        /\ expandRepoPatterns 5 ["nope"; "org/a#v2"; "org/*"] Demo.start
           = (Returns ([mkReference "org" "a" "org/a" (Some "v2")]
                       ++ concat (map (expansion 5 Demo.start) order))%list,
              st')
        /\ In (warning "nope") (console st')).
Proof.
  assert (Hok : Forall (fun p => is_direct p = true -> parses p = true)
                  ["nope"; "org/a#v2"; "org/*"]).
  { repeat (apply List.Forall_cons;
            [vm_compute; intros; (reflexivity || discriminate)|]).
    apply List.Forall_nil. }
  split; [|split].
  - apply (proj1 (expandRepoPatterns_skips_slashless 1 5
                    ["org/a"; "a/b#c#d"] Demo.start)).
    apply Exists_cons_tl, Exists_cons_hd. split; reflexivity.
  - destruct (proj2 (expandRepoPatterns_skips_slashless 1 5
                       ["nope"; "org/a#v2"; "org/*"] Demo.start) Hok)
      as (_ & _ & Hone & _).
    rewrite (Hone "org/*"
               [formatGitHubRepoFromApi Demo.a; formatGitHubRepoFromApi Demo.b]
               (snd (getOwnerRepos 5 "org"
                       (grown 1 (logged [warning "nope"] Demo.start))))
               eq_refl ltac:(vm_compute; reflexivity)).
    reflexivity.
  - destruct (proj2 (expandRepoPatterns_skips_slashless 1 5
                       ["nope"; "org/a#v2"; "org/*"] Demo.start) Hok)
      as (_ & _ & _ & Hrun).
    destruct (Hrun demo_listing_finite ltac:(lia))
      as (expanded & st' & Heq & Hwarn & Hpure).
    destruct (Hpure demo_stateless_listing) as (order & Hperm & ->).
    exists order, st'. split; [exact Hperm|]. split; [exact Heq|].
    apply Hwarn; [simpl; auto | reflexivity].
Defined.

Example slashless_is_skipped :
  expandRepoPatterns 5 ["nope"; "org/a#v2"] Demo.start
  = (Returns [mkReference "org" "a" "org/a" (Some "v2")],
     grown 1 (logged [warning "nope"] Demo.start)).
Proof. vm_compute. reflexivity. Qed.

(** C2. With ["org/a"], in any letter case, as the exclude list,
    [_determineGitHubRepos] throws a TypeError at its first statement, in
    place of returning [org/b]: the callback given to [excludes.map] is
    [String.prototype.toLowerCase] with no receiver. *)
Theorem exclude_throws_TypeError :
  _determineGitHubRepos 5 ["org/a"; "org/b"] (Some ["org/a"]) Demo.start
  = (Throws
       (TypeError "String.prototype.toLowerCase called on null or undefined"),
     Demo.start)
  /\ _determineGitHubRepos 5 ["org/a"; "org/b"] (Some ["ORG/A"]) Demo.start
     = (Throws
          (TypeError "String.prototype.toLowerCase called on null or undefined"),
        Demo.start)
  /\ fst (init ".workspace" 5
            (mkPatterns ["org/a"; "org/b"] (Some ["Org/A"])) Demo.options
            Demo.start)
     = Throws
         (TypeError "String.prototype.toLowerCase called on null or undefined")
  /\ map repo_fullName
       (Demo.returned
          (_determineGitHubRepos 5 ["org/a"; "org/b"] None Demo.start))
     = ["org/a"; "org/b"].
Proof. vm_compute. repeat split; reflexivity. Qed.

(** C3. The set that [expandRepoPatterns] fills compares references by
    identity, and every reference put into it is a new object: a fullName
    given twice, or given and listed, is returned as often. *)
Theorem duplicate_fullName_is_kept :
  fst (expandRepoPatterns 5 ["org/a"; "org/a"] Demo.start)
  = Returns [mkReference "org" "a" "org/a" None;
             mkReference "org" "a" "org/a" None]
  /\ fst (expandRepoPatterns 5 ["org/a#v2"; "org/*"] Demo.start)
     = Returns [mkReference "org" "a" "org/a" (Some "v2");
                mkReference "org" "a" "org/a" (Some "master");
                mkReference "org" "b" "org/b" (Some "master")]
  /\ ~ List.NoDup
         (map ref_fullName
            (Demo.returned
               (expandRepoPatterns 5 ["org/a"; "org/a"] Demo.start))).
Proof.
  split; [vm_compute; reflexivity|]. split; [vm_compute; reflexivity|].
  vm_compute. intros H. inversion H as [|? ? Hin _]. apply Hin. now left.
Qed.


Example not_found_and_found :
  fst (_determineGitHubRepos 5 ["org/x"; "org/a"] None Demo.start)
  = Returns [mkRepo "org" "a" "org/a" "https://github.com/org/a.git"
               "master" "master"]
  /\ console (snd (_determineGitHubRepos 5 ["org/x"; "org/a"] None Demo.start))
     = [LogText "Repo not found: org/x (Not Found)"]
  /\ requests (snd (_determineGitHubRepos 5 ["org/x"; "org/a"] None Demo.start))
     = [ReposGet "org" "x"; ReposGet "org" "a"].
Proof. vm_compute. repeat split; reflexivity. Qed.

Lemma run_partitions_witness :
  run Demo.tests Demo.start = (Throws not_initialized, Demo.start)
  /\ fst (run Demo.tests (snd Demo.first_init))
     = Returns ([Demo.workspace_repo "a" 2],
                [(Demo.workspace_repo "b" 3, Error "tests failed")]).
Proof.
  split.
  - apply (proj1 (run_partitions Demo.tests Demo.start)). reflexivity.
  - apply (proj2 (proj2 (run_partitions Demo.tests (snd Demo.first_init)))).
    + left. vm_compute. reflexivity.
    + simpl. lia.
    + reflexivity.
    + reflexivity.
Defined.



(** * Further properties *)

(** ** The parser, on any string *)

Section SplitMore.
Variable sep : ascii.

Lemma length_split (s : string) : length (JS.split sep s) = S (count sep s).
Proof.
  induction s as [|a s IH]; simpl; [reflexivity|].
  destruct (Ascii.eqb a sep); simpl; [now rewrite IH|].
  destruct (JS.split sep s); simpl in *; congruence.
Qed.

Lemma hd_split (s : string) :
  hd EmptyString (JS.split sep s) = before sep s.
Proof.
  induction s as [|a s IH]; simpl; [reflexivity|].
  destruct (Ascii.eqb a sep); simpl; [reflexivity|].
  destruct (JS.split sep s); simpl in *; congruence.
Qed.

Lemma split_not_nil (s : string) : JS.split sep s <> [].
Proof.
  intros H. apply (f_equal (@length string)) in H.
  rewrite length_split in H. discriminate.
Qed.

(** The first piece holds no separator; the rest is the split of what
    follows the first separator. *)
Lemma split_inv (s a : string) (rest : list string) :
  JS.split sep s = a :: rest ->
  JS.includes sep a = false
  /\ (rest = [] -> s = a)
  /\ (rest <> [] ->
      exists s', s = a +:+ String sep s' /\ JS.split sep s' = rest).
Proof.
  revert a rest. induction s as [|c s IH]; intros a rest; simpl.
  - intros [= <- <-]. repeat split; congruence.
  - destruct (Ascii.eqb_spec c sep) as [->|Hne].
    + intros [= <- <-]. split; [reflexivity|]. split.
      * intros Hnil. now apply split_not_nil in Hnil.
      * intros _. exists s. split; reflexivity.
    + destruct (JS.split sep s) as [|h t] eqn:Hs.
      * now apply split_not_nil in Hs.
      * intros [= <- <-]. destruct (IH h t eq_refl) as (Hh & Hnil & Hcons).
        apply Ascii.eqb_neq in Hne. simpl. rewrite Hne, Hh.
        split; [reflexivity|]. split.
        -- intros Ht. now rewrite (Hnil Ht).
        -- intros Ht. destruct (Hcons Ht) as (s' & -> & Hs').
           exists s'. split; [reflexivity | exact Hs'].
Qed.

Lemma includes_false_app (a b : string) :
  JS.includes sep (a +:+ b) = false ->
  JS.includes sep a = false /\ JS.includes sep b = false.
Proof. rewrite includes_app. apply orb_false_iff. Qed.

End SplitMore.

Lemma append_nil_r (a : string) : a +:+ EmptyString = a.
Proof. induction a as [|c a IH]; [reflexivity|]. rewrite append_cons. now f_equal. Qed.

(** What a parsed pattern looks like. *)
Lemma parse_inv (p : string) (r : GitHubRepoReference) :
  fullNameToGithubRepoReference p = inr r ->
  JS.includes "/" (ref_owner r) = false
  /\ JS.includes "#" (ref_owner r) = false
  /\ JS.includes "/" (ref_name r) = false
  /\ JS.includes "#" (ref_name r) = false
  /\ ref_fullName r = ref_owner r +:+ "/" +:+ ref_name r
  /\ (pattern_of r = p \/ (p = pattern_of r +:+ "#" /\ ref_ref r = None)).
Proof.
  unfold fullNameToGithubRepoReference.
  destruct (JS.split "#" p) as [|h hs] eqn:Hh;
    [now apply split_not_nil in Hh|].
  simpl hd.
  destruct (JS.split "/" h) as [|o [|n [|x xs]]] eqn:Hs; simpl;
    try discriminate.
  destruct hs as [|x [|y ys]]; simpl; try discriminate.
  - intros [= <-]. simpl.
    destruct (split_inv "#" p h [] Hh) as (Hhash & Hp & _).
    destruct (split_inv "/" h o [n] Hs) as (Ho & _ & Hcons).
    destruct (Hcons ltac:(discriminate)) as (s' & Hh' & Hs').
    destruct (split_inv "/" s' n [] Hs') as (Hn & Hs'' & _).
    rewrite (Hs'' eq_refl) in Hh'. subst h.
    apply includes_false_app in Hhash as [Hoh Hnh]. simpl in Hnh.
    repeat split; try assumption.
    left. unfold pattern_of. simpl. rewrite append_nil_r. symmetry. now apply Hp.
  - intros [= <-]. simpl.
    destruct (split_inv "#" p h [x] Hh) as (Hhash & _ & Hpc).
    destruct (Hpc ltac:(discriminate)) as (p' & Hp & Hp').
    destruct (split_inv "#" p' x [] Hp') as (_ & Hx & _).
    rewrite (Hx eq_refl) in Hp.
    destruct (split_inv "/" h o [n] Hs) as (Ho & _ & Hcons).
    destruct (Hcons ltac:(discriminate)) as (s' & Hh' & Hs').
    destruct (split_inv "/" s' n [] Hs') as (Hn & Hs'' & _).
    rewrite (Hs'' eq_refl) in Hh'. subst h.
    apply includes_false_app in Hhash as [Hoh Hnh]. simpl in Hnh.
    repeat split; try assumption.
    unfold pattern_of. simpl. destruct x as [|c x]; simpl.
    + right. rewrite append_nil_r. split; [exact Hp | reflexivity].
    + left. symmetry. exact Hp.
Qed.

(** X1. A string parses exactly when it has at most one '#' and the part
    before its first '#' has exactly one '/'; any other string makes the
    parser throw, with the string quoted in the message. *)
Theorem parse_accepts_iff (p : string) :
  (parses p = true <-> count "#" p <= 1 /\ count "/" (before "#" p) = 1)
  /\ (parses p = false ->
      fullNameToGithubRepoReference p
      = inl (Error ("Repo '" +:+ p +:+
                    "' is not in form user/repo or user/repo#ref"))).
Proof.
  unfold parses, fullNameToGithubRepoReference.
  rewrite hd_split, !length_split.
  destruct (Nat.eqb_spec (S (count "/" (before "#" p))) 2) as [H1|H1];
    destruct (Nat.ltb_spec 2 (S (count "#" p))) as [H2|H2]; simpl;
    (split; [split; [intros; try discriminate; lia | intros; (reflexivity || lia)]
            | intros; (reflexivity || discriminate)]).
Qed.

(** X2. The reference of a parsed pattern gives the pattern back: its owner
    and name hold no '/' and no '#', its fullName is owner, '/', name, and
    the pattern is the fullName followed by '#' and the ref when there is
    one; the one pattern not given back is one that ends in a bare '#',
    which parses to the reference without ref. *)
Theorem parse_print (p : string) (r : GitHubRepoReference) :
  fullNameToGithubRepoReference p = inr r ->
  JS.includes "/" (ref_owner r) = false
  /\ JS.includes "#" (ref_owner r) = false
  /\ JS.includes "/" (ref_name r) = false
  /\ JS.includes "#" (ref_name r) = false
  /\ ref_fullName r = ref_owner r +:+ "/" +:+ ref_name r
  /\ (pattern_of r = p \/ (p = pattern_of r +:+ "#" /\ ref_ref r = None)).
Proof. apply parse_inv. Qed.

Lemma parse_print_witness :
  pattern_of (mkReference "Polymer" "polymer" "Polymer/polymer"
                (Some "2.0-preview"))
  = "Polymer/polymer#2.0-preview"
  \/ ("Polymer/polymer#2.0-preview"
      = pattern_of (mkReference "Polymer" "polymer" "Polymer/polymer"
                      (Some "2.0-preview")) +:+ "#"
      /\ Some "2.0-preview" = None).
Proof.
  apply (parse_print "Polymer/polymer#2.0-preview"
           (mkReference "Polymer" "polymer" "Polymer/polymer"
              (Some "2.0-preview")) eq_refl).
Defined.

(** X3. The fullName of a parsed pattern parses again, to the same owner,
    name and fullName, without ref: this is the parse that [getRepoInfo]
    makes of the references it is given. *)
Theorem parse_fullName_again (p : string) (r : GitHubRepoReference) :
  fullNameToGithubRepoReference p = inr r ->
  fullNameToGithubRepoReference (ref_fullName r)
  = inr {| ref_owner := ref_owner r; ref_name := ref_name r;
           ref_fullName := ref_fullName r; ref_ref := None |}.
Proof.
  intros H. destruct (parse_inv p r H) as (Ho & Hoh & Hn & Hnh & Hf & _).
  rewrite Hf. now apply parse_owner_name.
Qed.

Lemma parse_fullName_again_witness :
  fullNameToGithubRepoReference "Polymer/polymer"
  = inr (mkReference "Polymer" "polymer" "Polymer/polymer" None).
Proof.
  apply (parse_fullName_again "Polymer/polymer#2.0-preview"
           (mkReference "Polymer" "polymer" "Polymer/polymer"
              (Some "2.0-preview")) eq_refl).
Defined.

(** ** [getRepoInfo] off the cache *)

Section Lookup.
Context {E : Env}.

(** A miss that parses: the request is made, and its answer decides. *)
Lemma getRepoInfo_miss (st : State E) (r parsed : GitHubRepoReference) :
  _cache st !! ref_fullName r = None ->
  fullNameToGithubRepoReference (ref_fullName r) = inr parsed ->
  getRepoInfo r st
  = let q := ReposGet (ref_owner parsed) (ref_name parsed) in
    match repos_get E (ref_owner parsed) (ref_name parsed) (world st) with
    | (inl e, w) => (Throws e, answered q w st)
    | (inr response, w) =>
        if isRedirect response then
          (Throws (Error ("Repo " +:+ ref_owner parsed +:+ "/" +:+
                          ref_name parsed +:+ " could not be loaded.")),
           logged [LogText "Repo ${owner}/${repo} has moved permanently.";
                   LogResponse response] (answered q w st))
        else
          (Returns (assign_ref (formatGitHubRepoFromApi (data response))
                      (JS.or_else (ref_ref r)
                         (api_default_branch (data response)))),
           stored (ref_fullName r) (formatGitHubRepoFromApi (data response))
             (answered q w st))
    end.
Proof.
  intros Hmiss Hparse. unfold getRepoInfo, getRepoInfo_in.
  rewrite Hmiss, Hparse. unfold bind at 1. simpl.
  unfold bind at 1, request, call. simpl.
  destruct (repos_get E (ref_owner parsed) (ref_name parsed) (world st))
    as [[e|response] w]; simpl; [reflexivity|].
  destruct (isRedirect response); [|reflexivity].
  unfold bind, console_log, throw, logged, answered. simpl.
  now rewrite <- app_assoc.
Qed.

(** X4. A call of [getRepoInfo] that throws leaves the cache as it was, and
    it throws only for a fullName that is not cached: a failure is never
    cached, and a cached repository never fails. *)
Theorem getRepoInfo_failure_not_cached (st st' : State E)
  (r : GitHubRepoReference) (e : Exn) :
  getRepoInfo r st = (Throws e, st') ->
  _cache st' = _cache st /\ _cache st !! ref_fullName r = None.
Proof.
  destruct (_cache st !! ref_fullName r) as [c|] eqn:Hc.
  - rewrite (getRepoInfo_hit st r c Hc). discriminate.
  - destruct (fullNameToGithubRepoReference (ref_fullName r))
      as [pe|parsed] eqn:Hp.
    + unfold getRepoInfo, getRepoInfo_in. rewrite Hc, Hp.
      intros [= _ <-]. auto.
    + rewrite (getRepoInfo_miss st r parsed Hc Hp). simpl.
      destruct (repos_get E (ref_owner parsed) (ref_name parsed) (world st))
        as [[e'|response] w]; [intros [= _ <-]; auto|].
      destruct (isRedirect response); [intros [= _ <-]; auto | discriminate].
Qed.

(** X5. For a repository that the API reports as moved (a 301 status),
    [getRepoInfo] throws "Repo owner/name could not be loaded.", after one
    request and two lines on the console, and caches nothing. *)
Theorem getRepoInfo_moved (st : State E) (r : GitHubRepoReference)
  (o n : string) (response : ApiResponse) (w : World E) :
  _cache st !! ref_fullName r = None ->
  ref_fullName r = o +:+ "/" +:+ n ->
  JS.includes "/" o = false -> JS.includes "#" o = false ->
  JS.includes "/" n = false -> JS.includes "#" n = false ->
  repos_get E o n (world st) = (inr response, w) ->
  isRedirect response = true ->
  getRepoInfo r st
  = (Throws (Error ("Repo " +:+ o +:+ "/" +:+ n +:+ " could not be loaded.")),
     logged [LogText "Repo ${owner}/${repo} has moved permanently.";
             LogResponse response] (answered (ReposGet o n) w st)).
Proof.
  intros Hmiss Hf Ho Hoh Hn Hnh Hget Hred.
  assert (Hp : fullNameToGithubRepoReference (ref_fullName r)
               = inr (mkReference o n (o +:+ "/" +:+ n) None))
    by (rewrite Hf; now apply parse_owner_name).
  rewrite (getRepoInfo_miss st r _ Hmiss Hp). simpl.
  rewrite Hget, Hred. reflexivity.
Qed.

(** X6. For a fullName that is not cached and does not parse,
    [getRepoInfo] throws the parse error and does nothing else: no
    request is made. *)
Theorem getRepoInfo_malformed (st : State E) (r : GitHubRepoReference) :
  _cache st !! ref_fullName r = None ->
  parses (ref_fullName r) = false ->
  getRepoInfo r st
  = (Throws (Error ("Repo '" +:+ ref_fullName r +:+
                    "' is not in form user/repo or user/repo#ref")),
     st).
Proof.
  intros Hmiss Hp. unfold getRepoInfo, getRepoInfo_in. rewrite Hmiss.
  unfold parses in Hp. unfold fullNameToGithubRepoReference in *.
  destruct (negb (length (JS.split "/" (hd EmptyString
                                          (JS.split "#" (ref_fullName r))))
                  =? 2)%nat
            || (2 <? length (JS.split "#" (ref_fullName r)))%nat);
    [reflexivity | discriminate].
Qed.

(** X7. After [resetCache] no reference is cached: [getRepoInfo] on a
    reference whose fullName parses makes one request for its owner and
    name, whatever was cached before and whatever the API answers. *)
Theorem getRepoInfo_after_resetCache (st : State E)
  (r parsed : GitHubRepoReference) :
  fullNameToGithubRepoReference (ref_fullName r) = inr parsed ->
  _cache (snd (resetCache st)) = ∅
  /\ requests (snd (bind resetCache (fun _ => getRepoInfo r) st))
     = (requests st ++ [ReposGet (ref_owner parsed) (ref_name parsed)])%list.
Proof.
  intros Hp. split; [reflexivity|].
  unfold bind, resetCache.
  rewrite (getRepoInfo_miss _ r parsed (lookup_empty _) Hp). simpl.
  destruct (repos_get E (ref_owner parsed) (ref_name parsed) (world st))
    as [[e|response] w]; [reflexivity|].
  destruct (isRedirect response); reflexivity.
Qed.

End Lookup.

Lemma getRepoInfo_failure_not_cached_witness :
  _cache (snd (getRepoInfo (mkReference "org" "x" "org/x" None)
                 (snd Demo.first_init)))
  = _cache (snd Demo.first_init)
  /\ _cache (snd Demo.first_init) !! "org/x" = None.
Proof.
  apply (getRepoInfo_failure_not_cached (snd Demo.first_init)
           (snd (getRepoInfo (mkReference "org" "x" "org/x" None)
                   (snd Demo.first_init)))
           (mkReference "org" "x" "org/x" None) (Error "Not Found")).
  vm_compute. reflexivity.
Defined.

Lemma getRepoInfo_moved_witness :
  fst (getRepoInfo (mkReference "org" "old" "org/old" (Some "v1")) Demo.start)
  = Throws (Error "Repo org/old could not be loaded.").
Proof.
  rewrite (getRepoInfo_moved Demo.start
             (mkReference "org" "old" "org/old" (Some "v1")) "org" "old"
             (mkResponse (Some "301 Moved Permanently")
                (Demo.api_repo "new" false)) tt);
    reflexivity.
Defined.

Lemma getRepoInfo_malformed_witness :
  getRepoInfo (mkReference "a" "b" "a/b/c" None) Demo.start
  = (Throws (Error "Repo 'a/b/c' is not in form user/repo or user/repo#ref"),
     Demo.start).
Proof.
  apply (getRepoInfo_malformed Demo.start (mkReference "a" "b" "a/b/c" None));
    reflexivity.
Defined.

Lemma getRepoInfo_after_resetCache_witness :
  requests (snd (bind resetCache
                   (fun _ => getRepoInfo (mkReference "org" "a" "org/a" None))
                   (snd Demo.first_init)))
  = (requests (snd Demo.first_init) ++ [ReposGet "org" "a"])%list.
Proof.
  apply (getRepoInfo_after_resetCache (snd Demo.first_init)
           (mkReference "org" "a" "org/a" None)
           (mkReference "org" "a" "org/a" None) eq_refl).
Defined.

(** ** [getOwnerRepos], on any API *)

Section ListingMore.
Context {E : Env}.

Lemma request_user_page (o : string) (page : nat)
  (pageRepos : list GitHubRepoCached) (st : State E)
  (listing : list ApiRepo) (w : World E) :
  repos_getForUser E o pageSize page (world st) = (inr listing, w) ->
  fetch_page o page false pageRepos st
  = (Returns (false, public_repos listing),
     answered (ReposGetForUser o pageSize page) w st).
Proof.
  intros H. unfold fetch_page, bind, try_catch, request, call. simpl.
  rewrite H. reflexivity.
Qed.

Lemma request_user_page_after_org (o : string) (page : nat)
  (pageRepos : list GitHubRepoCached) (st : State E) (e : Exn)
  (answer : Exn + list ApiRepo) (w1 w2 : World E) :
  repos_getForOrg E o pageSize page (world st) = (inl e, w1) ->
  repos_getForUser E o pageSize page w1 = (answer, w2) ->
  fetch_page o page true pageRepos st
  = (Returns (false,
              match answer with
              | inr listing => public_repos listing
              | inl _ => []
              end),
     answered (ReposGetForUser o pageSize page) w2
       (answered (ReposGetForOrg o pageSize page) w1 st)).
Proof.
  intros H1 H2. unfold fetch_page, bind, try_catch, request, call. simpl.
  rewrite H1. simpl. rewrite H2. destruct answer; reflexivity.
Qed.

(** What a page fetch gives, in every case. *)
Lemma fetch_page_spec (o : string) (page : nat) (isOrg : bool)
  (pageRepos : list GitHubRepoCached) (st : State E) :
  exists isOrg' pageRepos' st',
    fetch_page o page isOrg pageRepos st = (Returns (isOrg', pageRepos'), st')
    /\ only_requests st st'
    /\ (exists listing, pageRepos' = public_repos listing)
    /\ (isOrg' = true -> isOrg = true)
    /\ length (requests st')
       <= length (requests st)
          + (if isOrg && negb isOrg' then 2 else 1)
    /\ forall N, listing_finite E N -> N <= page -> pageRepos' = [].
Proof.
  unfold fetch_page, bind, try_catch, request, call, only_requests.
  destruct isOrg; simpl.
  - destruct (repos_getForOrg E o pageSize page (world st))
      as [[e|l] w] eqn:Horg; simpl.
    + destruct (repos_getForUser E o pageSize page w)
        as [[e'|l] w'] eqn:Huser; simpl.
      * do 3 eexists. split; [reflexivity|]. split; [tauto|].
        split; [now exists []|]. split; [discriminate|]. simpl.
        split; [rewrite !length_app; simpl; lia | reflexivity].
      * do 3 eexists. split; [reflexivity|]. split; [tauto|].
        split; [now exists l|]. split; [discriminate|]. simpl.
        split; [rewrite !length_app; simpl; lia|].
        intros N HN Hp. exact (proj2 (HN o pageSize page w w' l Hp) Huser).
    + do 3 eexists. split; [reflexivity|]. split; [tauto|].
      split; [now exists l|]. split; [reflexivity|]. simpl.
      split; [rewrite !length_app; simpl; lia|].
      intros N HN Hp.
      exact (proj1 (HN o pageSize page (world st) w l Hp) Horg).
  - destruct (repos_getForUser E o pageSize page (world st))
      as [[e'|l] w'] eqn:Huser; simpl.
    + do 3 eexists. split; [reflexivity|]. split; [tauto|].
      split; [now exists []|]. split; [discriminate|]. simpl.
      split; [rewrite !length_app; simpl; lia | reflexivity].
    + do 3 eexists. split; [reflexivity|]. split; [tauto|].
      split; [now exists l|]. split; [discriminate|]. simpl.
      split; [rewrite !length_app; simpl; lia|].
      intros N HN Hp.
      exact (proj2 (HN o pageSize page (world st) w' l Hp) Huser).
Qed.

(** X8. When the organization listing fails on the first page, the user
    listing is asked for the same page, and from then on only the user
    listing: with a first user page of public repositories and an empty
    second one, the requests are organization page 0, user page 0, user
    page 1, and the public repositories of the user page are returned and
    cached. *)
Theorem getOwnerRepos_user_fallback (fuel : nat) (o : string) (st : State E)
  (e : Exn) (listing : list ApiRepo) (w1 w2 w3 : World E) :
  repos_getForOrg E o pageSize 0 (world st) = (inl e, w1) ->
  repos_getForUser E o pageSize 0 w1 = (inr listing, w2) ->
  repos_getForUser E o pageSize 1 w2 = (inr [], w3) ->
  public_repos listing <> [] ->
  fst (getOwnerRepos (S (S fuel)) o st) = Returns (public_repos listing)
  /\ requests (snd (getOwnerRepos (S (S fuel)) o st))
     = (requests st
        ++ [ReposGetForOrg o 50 0; ReposGetForUser o 50 0;
            ReposGetForUser o 50 1])%list
  /\ _cache (snd (getOwnerRepos (S (S fuel)) o st))
     = _cache (cached (public_repos listing) st)
  /\ world (snd (getOwnerRepos (S (S fuel)) o st)) = w3.
Proof.
  intros H0 H1 H2 Hne. unfold getOwnerRepos.
  rewrite (getOwnerRepos_loop_step _ _ _ _ _ _ _ _ _ _
             (request_user_page_after_org o 0 [] st e (inr listing) w1 w2
                H0 H1)).
  replace (0 <? length (public_repos listing))%nat with true
    by (destruct (public_repos listing); [contradiction | reflexivity]).
  set (st1 := cached (public_repos listing)
                (answered (ReposGetForUser o pageSize 0) w2
                   (answered (ReposGetForOrg o pageSize 0) w1 st))).
  assert (H2' : repos_getForUser E o pageSize 1 (world st1) = (inr [], w3))
    by exact H2.
  rewrite (getOwnerRepos_loop_step _ _ _ _ _ _ _ _ _ _
             (request_user_page o 1 (public_repos listing) st1 [] w3 H2')).
  simpl. rewrite app_nil_r, <- !app_assoc. auto.
Qed.

(** X9. [getOwnerRepos] never throws, whatever the API does; when both
    listings fail on the first page it returns the empty list after these
    two requests, and the cache is as it was. *)
Theorem getOwnerRepos_never_throws_both_fail (fuel : nat) (o : string)
  (st : State E) :
  (forall e, fst (getOwnerRepos fuel o st) <> Throws e)
  /\ (forall e1 e2 w1 w2,
        repos_getForOrg E o pageSize 0 (world st) = (inl e1, w1) ->
        repos_getForUser E o pageSize 0 w1 = (inl e2, w2) ->
        getOwnerRepos (S fuel) o st
        = (Returns [],
           answered (ReposGetForUser o pageSize 0) w2
             (answered (ReposGetForOrg o pageSize 0) w1 st))).
Proof.
  split.
  - intros e. apply getOwnerRepos_never_throws.
  - intros e1 e2 w1 w2 H1 H2. unfold getOwnerRepos.
    rewrite (getOwnerRepos_loop_step _ _ _ _ _ _ _ _ _ _
               (request_user_page_after_org o 0 [] st e1 (inl e2) w1 w2
                  H1 H2)).
    reflexivity.
Qed.

Lemma public_repos_private (listing : list ApiRepo) :
  Forall (fun obj => api_private obj = true) listing ->
  public_repos listing = [].
Proof.
  induction 1 as [|obj l Hobj _ IH]; [reflexivity|].
  unfold public_repos in *. simpl. rewrite Hobj. exact IH.
Qed.

(** X10. A first page on which every repository is private ends the
    listing, as an empty page does: [getOwnerRepos] returns the empty list
    after this one request, whatever the later pages hold. *)
Theorem getOwnerRepos_private_page_ends (fuel : nat) (o : string)
  (st : State E) (listing : list ApiRepo) (w : World E) :
  repos_getForOrg E o pageSize 0 (world st) = (inr listing, w) ->
  Forall (fun obj => api_private obj = true) listing ->
  getOwnerRepos (S fuel) o st
  = (Returns [], answered (ReposGetForOrg o pageSize 0) w st).
Proof.
  intros H Hprivate. unfold getOwnerRepos.
  rewrite (getOwnerRepos_loop_step _ _ _ _ _ _ _ _ _ _
             (request_org_page o 0 [] st listing w H)).
  rewrite (public_repos_private _ Hprivate). reflexivity.
Qed.

Lemma cached_mono (l : list GitHubRepoCached) (st : State E) (k : string) :
  is_Some (_cache st !! k) -> is_Some (_cache (cached l st) !! k).
Proof.
  unfold cached. simpl. generalize (_cache st).
  induction l as [|r l IH]; intros m Hk; simpl; [exact Hk|].
  apply IH. destruct (decide (cached_fullName r = k)) as [<-|Hne].
  - rewrite lookup_insert_eq. eauto.
  - now rewrite lookup_insert_ne.
Qed.

Lemma cached_in (l : list GitHubRepoCached) (st : State E)
  (r : GitHubRepoCached) :
  In r l -> is_Some (_cache (cached l st) !! cached_fullName r).
Proof.
  revert st. induction l as [|x l IH]; intros st; [intros []|].
  intros [->|Hin].
  - apply (cached_mono l (cached [r] st)). simpl. rewrite lookup_insert_eq.
    eauto.
  - apply (IH (cached [x] st) Hin).
Qed.

Lemma getOwnerRepos_loop_caches (fuel : nat) (o : string)
  (allRepos pageRepos repos : list GitHubRepoCached) (page : nat)
  (isOrg : bool) (st st' : State E) :
  getOwnerRepos_loop fuel o allRepos pageRepos page isOrg st
  = (Returns repos, st') ->
  (forall k, is_Some (_cache st !! k) -> is_Some (_cache st' !! k))
  /\ (Forall (fun r => is_Some (_cache st !! cached_fullName r)) allRepos ->
      Forall (fun r => is_Some (_cache st' !! cached_fullName r)) repos)
  /\ (Forall (fun r => exists obj, api_private obj = false
                                   /\ r = formatGitHubRepoFromApi obj)
        allRepos ->
      Forall (fun r => exists obj, api_private obj = false
                                   /\ r = formatGitHubRepoFromApi obj)
        repos).
Proof.
  revert allRepos pageRepos page isOrg st.
  induction fuel as [|fuel IH]; intros allRepos pageRepos page isOrg st;
    [discriminate|].
  destruct (fetch_page_spec o page isOrg pageRepos st)
    as (isOrg' & pageRepos' & st1 & Hfetch & (Hc & _) & (listing & Hl) & _).
  rewrite (getOwnerRepos_loop_step _ _ _ _ _ _ _ _ _ _ Hfetch).
  assert (Hmono : forall k, is_Some (_cache st !! k) ->
                            is_Some (_cache (cached pageRepos' st1) !! k)).
  { intros k Hk. apply cached_mono. now rewrite Hc. }
  assert (Hall : Forall (fun r => is_Some (_cache st !! cached_fullName r))
                   allRepos ->
                 Forall (fun r => is_Some (_cache (cached pageRepos' st1)
                                           !! cached_fullName r))
                   (allRepos ++ pageRepos')).
  { intros H. apply Forall_app. split.
    - eapply Forall_impl; [exact H|]. intros r. apply Hmono.
    - apply Forall_forall. intros r Hr. apply cached_in.
      now apply list_elem_of_In. }
  assert (Hpub : Forall (fun r => exists obj, api_private obj = false
                                 /\ r = formatGitHubRepoFromApi obj)
                   allRepos ->
                 Forall (fun r => exists obj, api_private obj = false
                                 /\ r = formatGitHubRepoFromApi obj)
                   (allRepos ++ pageRepos')).
  { intros H. apply Forall_app. split; [exact H|].
    subst pageRepos'. unfold public_repos. apply Forall_forall.
    intros r Hr. apply list_elem_of_In, in_map_iff in Hr as (obj & <- & Hin).
    apply filter_In in Hin as [_ Hp]. exists obj.
    split; [now apply negb_true_iff | reflexivity]. }
  destruct (0 <? length pageRepos')%nat.
  - intros Hrun. destruct (IH _ _ _ _ _ Hrun) as (Hm & Hcached & Hpublic).
    split; [auto|]. split; auto.
  - intros [= <- <-]. split; [exact Hmono|]. split; assumption.
Qed.


Lemma getOwnerRepos_loop_bounded (N fuel : nat) (o : string)
  (allRepos pageRepos : list GitHubRepoCached) (page : nat) (isOrg : bool)
  (st : State E) :
  listing_finite E N -> N - page < fuel ->
  exists repos st',
    getOwnerRepos_loop fuel o allRepos pageRepos page isOrg st
    = (Returns repos, st')
    /\ length (requests st')
       <= length (requests st) + S (N - page) + (if isOrg then 1 else 0).
Proof.
  intros HN. revert allRepos pageRepos page isOrg st.
  induction fuel as [|fuel IH]; intros allRepos pageRepos page isOrg st Hf;
    [lia|].
  destruct (fetch_page_spec o page isOrg pageRepos st)
    as (isOrg' & pageRepos' & st1 & Hfetch & _ & _ & Horg & Hreq & Hempty).
  rewrite (getOwnerRepos_loop_step _ _ _ _ _ _ _ _ _ _ Hfetch).
  destruct (0 <? length pageRepos')%nat eqn:Hlen.
  - assert (Hp : page < N).
    { destruct (le_lt_dec N page) as [Hle|]; [|assumption].
      rewrite (Hempty N HN Hle) in Hlen. discriminate. }
    destruct (IH (allRepos ++ pageRepos')%list pageRepos' (S page) isOrg'
                (cached pageRepos' st1)) as (repos & st2 & Hloop & Hb);
      [lia|].
    exists repos, st2. split; [exact Hloop|]. simpl in Hb.
    destruct isOrg, isOrg'; simpl in *;
      try (specialize (Horg eq_refl); discriminate); lia.
  - do 2 eexists. split; [reflexivity|]. simpl.
    destruct isOrg, isOrg'; simpl in *; lia.
Qed.

(** X12. When the API lists no public repository from page [N] on,
    [getOwnerRepos] returns, given fuel for more than [N] turns, after at
    most [N + 2] requests: one for each page up to page [N], and one more
    in the turn in which it falls back to the user listing. *)
Theorem getOwnerRepos_terminates (N fuel : nat) (o : string) (st : State E) :
  listing_finite E N -> N < fuel ->
  exists repos st',
    getOwnerRepos fuel o st = (Returns repos, st')
    /\ length (requests st') <= length (requests st) + N + 2.
Proof.
  intros HN Hfuel.
  destruct (getOwnerRepos_loop_bounded N fuel o [] [] 0 true st HN
              ltac:(lia)) as (repos & st' & Hrun & Hb).
  exists repos, st'. split; [exact Hrun|]. simpl in Hb. lia.
Qed.

End ListingMore.

Lemma getOwnerRepos_user_fallback_witness :
  fst (getOwnerRepos 5 "user" (Demo2.start "none"))
  = Returns [formatGitHubRepoFromApi (Demo2.user_repo "u1" false)]
  /\ requests (snd (getOwnerRepos 5 "user" (Demo2.start "none")))
     = [ReposGetForOrg "user" 50 0; ReposGetForUser "user" 50 0;
        ReposGetForUser "user" 50 1].
Proof.
  destruct (getOwnerRepos_user_fallback 3 "user" (Demo2.start "none")
              (Error "Not Found")
              [Demo2.user_repo "u1" false; Demo2.user_repo "u2" true]
              tt tt tt eq_refl eq_refl eq_refl ltac:(discriminate))
    as (H1 & H2 & _).
  split; [exact H1 | exact H2].
Defined.

Lemma getOwnerRepos_never_throws_both_fail_witness :
  getOwnerRepos 1 "nobody" Demo.start
  = (Returns [],
     answered (E:=Demo.env) (ReposGetForUser "nobody" pageSize 0) tt
       (answered (E:=Demo.env) (ReposGetForOrg "nobody" pageSize 0) tt
          Demo.start)).
Proof.
  apply (proj2 (getOwnerRepos_never_throws_both_fail 0 "nobody" Demo.start)
           (Error "Not Found") (Error "Not Found") tt tt);
    reflexivity.
Defined.

Lemma getOwnerRepos_private_page_ends_witness :
  getOwnerRepos 5 "secret" (Demo2.start "none")
  = (Returns [],
     answered (E:=Demo2.env "none") (ReposGetForOrg "secret" pageSize 0) tt
       (Demo2.start "none")).
Proof.
  apply (getOwnerRepos_private_page_ends 4 "secret" (Demo2.start "none")
           [Demo2.secret_repo "s1" true] tt eq_refl).
  repeat constructor.
Defined.


Lemma getOwnerRepos_terminates_witness :
  exists repos st',
    getOwnerRepos 2 "org" Demo.start = (Returns repos, st')
    /\ length (requests st') <= length (requests Demo.start) + 1 + 2.
Proof.
  apply (getOwnerRepos_terminates 1 2 "org" Demo.start demo_listing_finite).
  lia.
Defined.

(** ** [expandRepoPatterns], on wildcard patterns *)

Lemma lower_ascii_idem (c : ascii) :
  JS.lower_ascii (JS.lower_ascii c) = JS.lower_ascii c.
Proof. destruct c as [[] [] [] [] [] [] [] []]; reflexivity. Qed.

Lemma toLowerCase_idem (s : string) :
  JS.toLowerCase (JS.toLowerCase s) = JS.toLowerCase s.
Proof.
  induction s as [|c s IH]; simpl; [reflexivity|].
  now rewrite lower_ascii_idem, IH.
Qed.

Lemma includes_slash_lower (s : string) :
  JS.includes "/" (JS.toLowerCase s) = JS.includes "/" s.
Proof.
  induction s as [|c s IH]; simpl; [reflexivity|]. rewrite IH. f_equal.
  destruct c as [[] [] [] [] [] [] [] []]; reflexivity.
Qed.

Lemma includes_hash_lower (s : string) :
  JS.includes "#" (JS.toLowerCase s) = JS.includes "#" s.
Proof.
  induction s as [|c s IH]; simpl; [reflexivity|]. rewrite IH. f_equal.
  destruct c as [[] [] [] [] [] [] [] []]; reflexivity.
Qed.

Lemma indexOf_app (c : ascii) (a b : string) :
  JS.includes c a = false ->
  JS.indexOf c (a +:+ String c b) = Some (String.length a).
Proof.
  induction a as [|x a IH].
  - intros _. rewrite append_empty. simpl. now rewrite Ascii.eqb_refl.
  - intros H. simpl in H. apply orb_false_iff in H as [Hx Ha].
    rewrite append_cons. simpl. now rewrite Hx, (IH Ha).
Qed.

Lemma take_app (a b : string) : JS.take (String.length a) (a +:+ b) = a.
Proof.
  induction a as [|x a IH]; [now destruct b|].
  rewrite append_cons. simpl. now rewrite IH.
Qed.

Lemma substring_to_indexOf_app (c : ascii) (a b : string) :
  JS.includes c a = false ->
  JS.substring_to_indexOf c (a +:+ String c b) = a.
Proof.
  intros H. unfold JS.substring_to_indexOf.
  rewrite (indexOf_app c a b H). apply take_app.
Qed.

Section WildcardsMore.
Context {E : Env}.

Lemma bind_ret_r {A : Type} (c : M E A) (st : State E) :
  bind c (fun a => ret a) st = c st.
Proof. unfold bind. destruct (c st) as [[a|e|] st1]; reflexivity. Qed.

Lemma bind_bind {A B C : Type} (c : M E A) (k : A -> M E B)
  (h : B -> M E C) (st : State E) :
  bind (bind c k) h st = bind c (fun a => bind (k a) h) st.
Proof. unfold bind. destruct (c st) as [[a|e|] st1]; reflexivity. Qed.

(** One wildcard pattern: the call is the lookup of its owner. *)
Lemma expand_single_wildcard (fuel : nat) (p : string) (st : State E) :
  is_wildcard p = true ->
  expandRepoPatterns fuel [p] st
  = bind (lookup_owner fuel p []) (fun all => ret (map val all)) st.
Proof.
  intros Hw. unfold is_wildcard in Hw. apply andb_true_iff in Hw as [Hs Hx].
  unfold expandRepoPatterns. simpl expand_loop. rewrite Hs, Hx. simpl.
  rewrite (bind_returns (ret ([], [p])) _ st st ([], [p]) eq_refl).
  simpl. rewrite bind_bind. unfold bind.
  destruct (lookup_owner fuel p [] st) as [[all|e|] st1]; reflexivity.
Qed.

Lemma expand_single_wildcard_spec (fuel : nat) (p : string)
  (st st1 : State E) (repos : list GitHubRepoCached) :
  is_wildcard p = true ->
  getOwnerRepos fuel (JS.toLowerCase (JS.substring_to_indexOf "/" p)) st
  = (Returns repos, st1) ->
  expandRepoPatterns fuel [p] st
  = (Returns
       (map (expanded_reference
               (if JS.includes "#" p
                then Some (JS.substring_after_indexOf "#" p) else None))
          repos),
     grown (length repos)
       (logged [LogOwnerRepos "AHHH"
                  (JS.toLowerCase (JS.substring_to_indexOf "/" p)) repos]
          st1)).
Proof.
  intros Hw Hlist. rewrite (expand_single_wildcard fuel p st Hw).
  unfold lookup_owner. rewrite bind_bind.
  rewrite (bind_returns _ _ _ _ _ Hlist). rewrite bind_bind.
  set (entry := LogOwnerRepos "AHHH"
                  (JS.toLowerCase (JS.substring_to_indexOf "/" p)) repos).
  rewrite (bind_returns (console_log entry) _ st1 (logged [entry] st1) tt
             eq_refl).
  destruct (add_owner_repos_spec
              (if JS.includes "#" p
               then Some (JS.substring_after_indexOf "#" p) else None)
              repos [] (logged [entry] st1) ltac:(constructor))
    as (objs & Hadd & Hval & _).
  rewrite (bind_returns _ _ _ _ _ Hadd). simpl. unfold ret.
  now rewrite Hval.
Qed.

(** X13. A wildcard in the name selects nothing: the pattern
    [owner/name], with a '*' in the name and no '#', expands exactly as the
    pattern made of the lower-cased owner and ["/*"], to all the public
    repositories of the owner. *)
Theorem wildcard_name_is_ignored (fuel : nat) (o n : string) (st : State E) :
  JS.includes "/" o = false -> JS.includes "#" o = false ->
  JS.includes "*" n = true -> JS.includes "#" n = false ->
  expandRepoPatterns fuel [o +:+ "/" +:+ n] st
  = expandRepoPatterns fuel [JS.toLowerCase o +:+ "/*"] st.
Proof.
  intros Ho Hoh Hn Hnh.
  assert (Hw1 : is_wildcard (o +:+ "/" +:+ n) = true).
  { unfold is_wildcard. rewrite !includes_app, Hn. simpl.
    now rewrite !orb_true_r. }
  assert (Hw2 : is_wildcard (JS.toLowerCase o +:+ "/*") = true).
  { unfold is_wildcard. rewrite !includes_app. simpl.
    now rewrite !orb_true_r. }
  rewrite (expand_single_wildcard _ _ _ Hw1),
    (expand_single_wildcard _ _ _ Hw2).
  unfold lookup_owner.
  change (o +:+ "/" +:+ n) with (o +:+ String "/" n).
  change (JS.toLowerCase o +:+ "/*") with (JS.toLowerCase o +:+ String "/" "*").
  rewrite (substring_to_indexOf_app "/" o n Ho).
  rewrite (substring_to_indexOf_app "/" (JS.toLowerCase o) "*")
    by (now rewrite includes_slash_lower).
  rewrite toLowerCase_idem, !includes_app, includes_hash_lower, Hoh.
  simpl. rewrite Hnh. reflexivity.
Qed.

Lemma Set_add_in (p : string) (owners : list string) :
  In p owners -> Set_add String.eqb p owners = owners.
Proof.
  intros H. unfold Set_add.
  replace (existsb (String.eqb p) owners) with true; [reflexivity|].
  symmetry. apply existsb_exists. exists p.
  split; [exact H | apply String.eqb_refl].
Qed.

Lemma in_Set_add (p q : string) (owners : list string) :
  In q owners \/ q = p -> In q (Set_add String.eqb p owners).
Proof.
  unfold Set_add. intros H.
  destruct (existsb (String.eqb p) owners) eqn:Hex.
  - destruct H as [H| ->]; [exact H|].
    apply existsb_exists in Hex as (x & Hx & Heq).
    apply String.eqb_eq in Heq. now subst.
  - apply in_or_app. destruct H as [H| ->]; [now left | right; now left].
Qed.

Lemma expand_loop_app (l1 l2 : list string)
  (all : list (Object GitHubRepoReference)) (owners : list string)
  (st : State E) :
  expand_loop (l1 ++ l2) all owners st
  = bind (expand_loop l1 all owners)
      (fun '(all', owners') => expand_loop l2 all' owners') st.
Proof.
  revert all owners st. induction l1 as [|p l1 IH]; intros all owners st.
  - reflexivity.
  - simpl. destruct (JS.includes "/" p); simpl.
    + destruct (JS.includes "*" p); simpl; [apply IH|].
      rewrite bind_bind. unfold bind at 1 3.
      destruct (of_sum (fullNameToGithubRepoReference p) st)
        as [[reference|e|] st1]; [|reflexivity|reflexivity].
      rewrite bind_bind. unfold bind at 1 3. simpl. apply IH.
    + rewrite bind_bind. unfold bind at 1 3. simpl. apply IH.
Qed.

Lemma expand_loop_owners (pats : list string)
  (all all' : list (Object GitHubRepoReference)) (owners owners' : list string)
  (st st' : State E) :
  expand_loop pats all owners st = (Returns (all', owners'), st') ->
  (forall q, In q owners -> In q owners')
  /\ (forall q, In q pats -> is_wildcard q = true -> In q owners').
Proof.
  revert all owners st. induction pats as [|p pats IH]; intros all owners st.
  - intros [= <- <- <-]. split; [auto | intros q []].
  - simpl. unfold is_wildcard.
    destruct (JS.includes "/" p) eqn:Hs; simpl.
    + destruct (JS.includes "*" p) eqn:Hx; simpl.
      * intros H. destruct (IH _ _ _ H) as (Hold & Hnew). split.
        -- intros q Hq. apply Hold, in_Set_add. now left.
        -- intros q [<-|Hq] Hw; [apply Hold, in_Set_add; now right|].
           now apply Hnew.
      * intros H. apply bind_inv in H as (reference & s1 & _ & H).
        apply bind_inv in H as (obj & s2 & _ & H).
        destruct (IH _ _ _ H) as (Hold & Hnew). split; [exact Hold|].
        intros q [<-|Hq] Hw; [|now apply Hnew].
        rewrite Hs, Hx in Hw. discriminate.
    + intros H. apply bind_inv in H as (? & s1 & _ & H).
      destruct (IH _ _ _ H) as (Hold & Hnew). split; [exact Hold|].
      intros q [<-|Hq] Hw; [|now apply Hnew].
      rewrite Hs in Hw. discriminate.
Qed.

(** X14. A wildcard pattern given again is looked up once: the patterns to
    look up are a set of strings, so adding to a list of patterns a
    wildcard pattern that it has already changes nothing, neither the
    result nor the requests. *)
Theorem repeated_wildcard_is_looked_up_once (fuel : nat)
  (pats : list string) (p : string) (st : State E) :
  is_wildcard p = true -> In p pats ->
  expandRepoPatterns fuel (pats ++ [p]) st = expandRepoPatterns fuel pats st.
Proof.
  intros Hw Hin. unfold expandRepoPatterns.
  unfold bind at 1 3. rewrite expand_loop_app. unfold bind at 1.
  destruct (expand_loop pats [] [] st) as [[[all owners]|e|] st1] eqn:Hrun;
    [|reflexivity|reflexivity].
  destruct (expand_loop_owners _ _ _ _ _ _ _ Hrun) as (_ & Hnew).
  simpl. unfold is_wildcard in Hw. apply andb_true_iff in Hw as [Hs Hx].
  rewrite Hs, Hx. simpl.
  rewrite (Set_add_in p owners)
    by (apply Hnew; [exact Hin | unfold is_wildcard; now rewrite Hs, Hx]).
  reflexivity.
Qed.

(** X15. One wildcard pattern gives one reference for each repository that
    [getOwnerRepos] returns for the lower-cased owner, in the order of the
    listing, each with the repository's owner, name and fullName, and as
    ref the part of the pattern after its first '#' when that is not
    empty, the default branch of the repository otherwise. *)
Theorem wildcard_references (fuel : nat) (p : string) (st st1 : State E)
  (repos : list GitHubRepoCached) :
  is_wildcard p = true ->
  getOwnerRepos fuel (JS.toLowerCase (JS.substring_to_indexOf "/" p)) st
  = (Returns repos, st1) ->
  fst (expandRepoPatterns fuel [p] st)
  = Returns
      (map (fun repo =>
              {| ref_owner := cached_owner repo;
                 ref_name := cached_name repo;
                 ref_fullName := cached_fullName repo;
                 ref_ref :=
                   Some (JS.or_else
                           (if JS.includes "#" p
                            then Some (JS.substring_after_indexOf "#" p)
                            else None)
                           (cached_defaultBranch repo)) |})
         repos)
  /\ requests (snd (expandRepoPatterns fuel [p] st)) = requests st1
  /\ _cache (snd (expandRepoPatterns fuel [p] st)) = _cache st1.
Proof.
  intros Hw Hlist.
  rewrite (expand_single_wildcard_spec fuel p st st1 repos Hw Hlist).
  repeat split.
Qed.

End WildcardsMore.

Lemma wildcard_name_is_ignored_witness :
  expandRepoPatterns 5 ["Org" +:+ "/" +:+ "iron-*"] Demo.start
  = expandRepoPatterns 5 [JS.toLowerCase "Org" +:+ "/*"] Demo.start.
Proof.
  apply (wildcard_name_is_ignored 5 "Org" "iron-*" Demo.start); reflexivity.
Defined.

Example wildcard_name_is_ignored_run :
  fst (expandRepoPatterns 5 ["Org/iron-*"] Demo.start)
  = Returns [mkReference "org" "a" "org/a" (Some "master");
             mkReference "org" "b" "org/b" (Some "master")].
Proof. vm_compute. reflexivity. Qed.

Lemma repeated_wildcard_is_looked_up_once_witness :
  expandRepoPatterns 5 (["org/*"; "org/a"] ++ ["org/*"]) Demo.start
  = expandRepoPatterns 5 ["org/*"; "org/a"] Demo.start.
Proof.
  apply (repeated_wildcard_is_looked_up_once 5 ["org/*"; "org/a"] "org/*"
           Demo.start); [reflexivity | now left].
Defined.

Lemma wildcard_references_witness :
  fst (expandRepoPatterns 5 ["org/*#v2"] Demo.start)
  = Returns [mkReference "org" "a" "org/a" (Some "v2");
             mkReference "org" "b" "org/b" (Some "v2")].
Proof.
  apply (proj1 (wildcard_references 5 "org/*#v2" Demo.start
                  (snd (getOwnerRepos 5 "org" Demo.start))
                  [formatGitHubRepoFromApi Demo.a;
                   formatGitHubRepoFromApi Demo.b]
                  eq_refl ltac:(vm_compute; reflexivity))).
Defined.

(** ** Workspace: targets, preflight, folders *)

Section WorkspaceMore.
Context {E : Env}.
Variable this_dir : string.

Lemma try_getRepoInfo_hit (cache : gmap string GitHubRepoCached)
  (r : GitHubRepoReference) (c : GitHubRepoCached) (st : State E) :
  cache !! ref_fullName r = Some c ->
  try_getRepoInfo cache r st
  = (Returns (inl (assign_ref c
                     (JS.or_else (ref_ref r) (cached_defaultBranch c)))),
     st).
Proof.
  intros H. unfold try_getRepoInfo, try_catch, bind, getRepoInfo_in.
  rewrite H. reflexivity.
Qed.

(** References that are all cached resolve without a request and without
    a failure. *)
Lemma resolve_all_cached (refs : list GitHubRepoReference) (st : State E) :
  (forall r, In r refs -> is_Some (_cache st !! ref_fullName r)) ->
  exists repos,
    resolve_all refs st = (Returns (map inl repos), st)
    /\ length repos = length refs.
Proof.
  unfold resolve_all. generalize (_cache st) at 1 2. intros cache.
  induction refs as [|r refs IH]; intros Hall.
  - exists []. split; reflexivity.
  - destruct (Hall r ltac:(now left)) as [c Hc].
    destruct (IH (fun x Hx => Hall x (or_intror Hx))) as (repos & Hrun & Hlen).
    eexists (_ :: repos). simpl.
    rewrite (try_getRepoInfo_hit cache r c st Hc), Hrun.
    split; [reflexivity | simpl; now rewrite Hlen].
Qed.

Lemma successes_inl (repos : list GitHubRepo) :
  successes (map inl repos) = repos /\ failures (map inl repos) = [].
Proof.
  induction repos as [|r l [IH1 IH2]]; [split; reflexivity|].
  unfold successes, failures in *. cbn. simpl in *. now rewrite IH1, IH2.
Qed.

(** X16. For one wildcard pattern, without excludes, the targets are
    resolved from the cache that the listing has filled: one repository is
    returned for each repository of the listing, no request is made after
    those of the listing, and no failure is reported. *)
Theorem wildcard_targets_from_cache (fuel : nat) (p : string)
  (st st1 : State E) (repos : list GitHubRepoCached) :
  is_wildcard p = true ->
  getOwnerRepos fuel (JS.toLowerCase (JS.substring_to_indexOf "/" p)) st
  = (Returns repos, st1) ->
  exists githubRepos st2,
    _determineGitHubRepos fuel [p] None st = (Returns githubRepos, st2)
    /\ length githubRepos = length repos
    /\ requests st2 = requests st1
    /\ _cache st2 = _cache st1
    /\ console st2
       = (console st1
          ++ [LogOwnerRepos "AHHH"
                (JS.toLowerCase (JS.substring_to_indexOf "/" p)) repos])%list.
Proof.
  intros Hw Hlist.
  pose proof (expand_single_wildcard_spec fuel p st st1 repos Hw Hlist)
    as Hexp.
  set (refs := map (expanded_reference
                      (if JS.includes "#" p
                       then Some (JS.substring_after_indexOf "#" p)
                       else None)) repos) in *.
  set (st1' := grown (length repos)
                 (logged [LogOwnerRepos "AHHH"
                            (JS.toLowerCase (JS.substring_to_indexOf "/" p))
                            repos] st1)) in *.
  assert (Hcached : forall r, In r refs ->
                      is_Some (_cache st1' !! ref_fullName r)).
  { intros r Hr. apply in_map_iff in Hr as (c & <- & Hc). simpl.
    destruct (getOwnerRepos_loop_caches _ _ _ _ _ _ _ _ _ Hlist)
      as (_ & Hall & _).
    specialize (Hall ltac:(constructor)). rewrite Forall_forall in Hall.
    apply Hall. now apply list_elem_of_In. }
  destruct (resolve_all_cached refs st1' Hcached) as (gs & Hres & Hlen).
  exists gs, st1'. split.
  - unfold _determineGitHubRepos. simpl.
    rewrite (bind_returns (ret []) _ st st [] eq_refl).
    rewrite (bind_returns _ _ _ _ _ Hexp).
    assert (Hf : List.filter
                   (fun repoRef : GitHubRepoReference =>
                      negb (JS.Array_includes []
                              (JS.toLowerCase (ref_fullName repoRef)))) refs
                 = refs).
    { clear. induction refs as [|r l IH]; simpl; [reflexivity|].
      f_equal. exact IH. }
    rewrite Hf. rewrite (bind_returns _ _ _ _ _ Hres).
    rewrite report_and_filter_spec.
    destruct (successes_inl gs) as [-> ->]. simpl. now rewrite logged_nil.
  - split; [|repeat split].
    rewrite Hlen. unfold refs. apply length_map.
Qed.

(** X17. When [git] is not installed, [init] on a new workspace throws
    the git-not-found error and has done nothing but ask for the command;
    when [git] is installed and [bower] is not, it throws the
    bower-not-found error after asking for both: no pattern is expanded,
    no request made, no folder touched. *)
Theorem init_missing_command (fuel : nat) (patterns : Patterns)
  (options : WorkspaceInitOptions) (st : State E) :
  _initializedRepos st = None ->
  (forall w,
     checkCommand E "git" (world st) = (inr false, w) ->
     init this_dir fuel patterns options st
     = (Throws (Error ("polymer-workspace: global " +:+ JS.dquote +:+ "git"
                       +:+ JS.dquote +:+
                       " command not found. Install git on your machine and then retry.")),
        in_world w st))
  /\ (forall w w',
        checkCommand E "git" (world st) = (inr true, w) ->
        checkCommand E "bower" w = (inr false, w') ->
        init this_dir fuel patterns options st
        = (Throws (Error ("polymer-workspace: global " +:+ JS.dquote +:+
                          "bower" +:+ JS.dquote +:+
                          " command not found. Install bower on your machine and then retry.")),
           in_world w' st)).
Proof.
  intros Hnone. split.
  - intros w Hgit. unfold init, bind at 1, _initValidate. rewrite Hnone.
    unfold check_commands, bind, call. rewrite Hgit. reflexivity.
  - intros w w' Hgit Hbower. unfold init, bind at 1, _initValidate.
    rewrite Hnone. unfold check_commands, bind, call. rewrite Hgit. simpl.
    rewrite Hbower. reflexivity.
Qed.

Lemma for_each_open_val (repos : list GitHubRepo) (st : State E)
  (objs : list (Object WorkspaceRepo)) (st' : State E) :
  for_each (_openWorkspaceRepo this_dir) repos st = (Returns objs, st') ->
  map val objs
  = map (fun repo =>
           {| dir := path_resolve E this_dir (repo_name repo);
              git := mkGitRepo (path_resolve E this_dir (repo_name repo));
              github := repo |}) repos.
Proof.
  revert st objs st'. induction repos as [|r l IH]; intros st objs st'; simpl.
  - now intros [= <- _].
  - intros H. apply bind_inv in H as (obj & s1 & Hobj & H).
    apply bind_inv in H as (rest & s2 & Hrest & H).
    injection H as <- _. injection Hobj as <- _. simpl.
    f_equal. eapply IH. exact Hrest.
Qed.

(** X18. When [init] returns, [_initValidate] has returned, and the
    repositories that [init] returns are, in order, those that
    [_determineGitHubRepos] then returned for the include and exclude
    patterns, each in the directory named after the repository under the
    workspace directory, with a git session on that directory; they are
    new objects, one for each repository. *)
Theorem init_returns_opened (fuel : nat) (patterns : Patterns)
  (options : WorkspaceInitOptions) (st st' : State E)
  (repos : list (Object WorkspaceRepo)) :
  init this_dir fuel patterns options st = (Returns repos, st') ->
  exists (st1 st2 : State E) (githubRepos : list GitHubRepo),
    _initValidate st = (Returns tt, st1)
    /\ _determineGitHubRepos fuel (include patterns) (exclude patterns) st1
       = (Returns githubRepos, st2)
    /\ map val repos
       = map (fun repo =>
                {| dir := path_resolve E this_dir (repo_name repo);
                   git := mkGitRepo (path_resolve E this_dir (repo_name repo));
                   github := repo |}) githubRepos
    /\ map addr repos = seq (next_addr st2) (length githubRepos).
Proof.
  unfold init. intros H.
  apply bind_inv in H as ([] & s1 & Hvalid & H).
  apply bind_inv in H as (githubRepos & s2 & Hdet & H).
  apply bind_inv in H as (workspaceRepos & s3 & Hopen & H).
  apply bind_inv in H as (? & s4 & _ & H).
  apply bind_inv in H as (? & s5 & _ & H).
  apply bind_inv in H as (? & s6 & _ & H).
  apply bind_inv in H as (? & s7 & _ & H).
  apply bind_inv in H as (? & s8 & _ & H).
  injection H as <- _.
  exists s1, s2, githubRepos.
  split; [exact Hvalid|]. split; [exact Hdet|]. split.
  - exact (for_each_open_val _ _ _ _ Hopen).
  - destruct (for_each_open this_dir githubRepos s2) as (objs & Hrun & Haddr).
    rewrite Hrun in Hopen. injection Hopen as <- _. exact Haddr.
Qed.

(** X19. Without [fresh], on a workspace directory that exists and in
    which the directory of every repository either does not exist or is a
    git repository, [_prepareWorkspaceFolders] changes nothing: it removes
    no folder and creates none. *)
Theorem prepare_leaves_clones (repos : list (Object WorkspaceRepo))
  (options : WorkspaceInitOptions) (st : State E) :
  fresh options = false ->
  existsSync E this_dir (world st) = true ->
  Forall (fun r => existsSync E (dir (val r)) (world st) = false
                   \/ git_isGit E (git (val r)) (world st) = true) repos ->
  _prepareWorkspaceFolders this_dir repos options st = (Returns tt, st).
Proof.
  intros Hfresh Hdir Hrepos. unfold _prepareWorkspaceFolders.
  rewrite Hfresh. simpl when at 1.
  rewrite (bind_returns (ret tt) _ st st tt eq_refl).
  rewrite (bind_returns (observe (existsSync E this_dir)) _ st st true)
    by (unfold observe; now rewrite Hdir).
  simpl when at 1. rewrite (bind_returns (ret tt) _ st st tt eq_refl).
  match goal with
  | |- bind (for_each ?f repos) _ st = _ =>
      assert (Hloop : for_each f repos st
                      = (Returns (map (fun _ => tt) repos), st))
  end.
  { induction Hrepos as [|r l Hr _ IH]; [reflexivity|].
    cbn [for_each map].
    rewrite (bind_returns _ _ st st tt);
      [cbv beta; unfold bind at 1; now rewrite IH|].
    unfold bind, observe.
    destruct Hr as [-> | ->]; [reflexivity | now rewrite andb_false_r]. }
  rewrite (bind_returns _ _ _ _ _ Hloop). reflexivity.
Qed.

End WorkspaceMore.

Lemma wildcard_targets_from_cache_witness :
  exists githubRepos st2,
    _determineGitHubRepos 5 ["org/*"] None Demo.start
    = (Returns githubRepos, st2)
    /\ length githubRepos = 2
    /\ requests st2
       = [ReposGetForOrg "org" 50 0; ReposGetForOrg "org" 50 1].
Proof.
  destruct (wildcard_targets_from_cache 5 "org/*" Demo.start
              (snd (getOwnerRepos 5 "org" Demo.start))
              [formatGitHubRepoFromApi Demo.a; formatGitHubRepoFromApi Demo.b]
              eq_refl ltac:(vm_compute; reflexivity))
    as (gs & st2 & Hrun & Hlen & Hreq & _).
  exists gs, st2. split; [exact Hrun|]. split; [exact Hlen | exact Hreq].
Defined.

Lemma init_missing_command_witness :
  fst (init ".workspace" 5 (mkPatterns ["org/*"] None) Demo.options
         (Demo2.start "git"))
  = Throws (Error ("polymer-workspace: global " +:+ JS.dquote +:+ "git"
                   +:+ JS.dquote +:+
                   " command not found. Install git on your machine and then retry."))
  /\ snd (init ".workspace" 5 (mkPatterns ["org/*"] None) Demo.options
            (Demo2.start "bower"))
     = Demo2.start "bower".
Proof.
  split.
  - rewrite (proj1 (init_missing_command ".workspace" 5
                      (mkPatterns ["org/*"] None) Demo.options
                      (Demo2.start "git") eq_refl) tt eq_refl).
    reflexivity.
  - rewrite (proj2 (init_missing_command ".workspace" 5
                      (mkPatterns ["org/*"] None) Demo.options
                      (Demo2.start "bower") eq_refl) tt tt eq_refl eq_refl).
    reflexivity.
Defined.

Lemma init_returns_opened_witness :
  exists (st1 st2 : State Demo.env) (githubRepos : list GitHubRepo),
    _initValidate Demo.start = (Returns tt, st1)
    /\ _determineGitHubRepos 5 ["org/*"] None st1 = (Returns githubRepos, st2)
    /\ map val (Demo.returned Demo.first_init)
       = map (fun repo =>
                {| dir := ".workspace/" +:+ repo_name repo;
                   git := mkGitRepo (".workspace/" +:+ repo_name repo);
                   github := repo |}) githubRepos
    /\ map addr (Demo.returned Demo.first_init)
       = seq (next_addr st2) (length githubRepos).
Proof.
  apply (init_returns_opened ".workspace" 5
           (mkPatterns ["org/*"] None) Demo.options Demo.start
           (snd Demo.first_init) (Demo.returned Demo.first_init)
           ltac:(vm_compute; reflexivity)).
Defined.

Lemma prepare_leaves_clones_witness :
  _prepareWorkspaceFolders ".workspace"
    [Demo.workspace_repo "a" 0; Demo.workspace_repo "b" 1] Demo.options
    (Demo2.start "none")
  = (Returns tt, Demo2.start "none").
Proof.
  apply (prepare_leaves_clones ".workspace"
           [Demo.workspace_repo "a" 0; Demo.workspace_repo "b" 1]
           Demo.options (Demo2.start "none") eq_refl eq_refl).
  repeat constructor; right; reflexivity.
Defined.

(** ** The bower configuration *)

Section Dependencies.
Context {E : Env}.
Variable get_dependency : BowerConfig E -> string -> option string.
Hypothesis laws : dependency_laws E get_dependency.

Lemma point_to_clones_spec (repos : list (Object WorkspaceRepo))
  (config config' : BowerConfig E) (st st' : State E) :
  point_to_clones repos config st = (Returns config', st') ->
  (forall repo, In repo repos ->
     exists sha,
       get_dependency config' (repo_name (github (val repo)))
       = Some ("./" +:+ repo_name (github (val repo)) +:+ "#" +:+ sha))
  /\ (forall key,
        ~ In key (map (fun repo => repo_name (github (val repo))) repos) ->
        get_dependency config' key = get_dependency config key).
Proof.
  revert config st. induction repos as [|r l IH]; intros config st; simpl.
  - intros [= <- _]. split; [intros repo [] | reflexivity].
  - intros H. apply bind_inv in H as (sha & s1 & _ & H).
    apply bind_inv in H as (config1 & s2 & Hset & H).
    destruct (set_dependency E config (repo_name (github (val r)))
                ("./" +:+ repo_name (github (val r)) +:+ "#" +:+ sha))
      as [e|c1] eqn:Hs; [discriminate|].
    injection Hset as <- _.
    destruct (laws _ _ _ _ Hs) as (Hkey & Hother).
    destruct (IH _ _ H) as (Hpins & Hframe). split.
    + intros repo [<-|Hin]; [|now apply Hpins].
      destruct (in_dec string_dec (repo_name (github (val r)))
                  (map (fun repo => repo_name (github (val repo))) l))
        as [Hl|Hl].
      * apply in_map_iff in Hl as (r' & Hname & Hr').
        destruct (Hpins r' Hr') as (sha' & Hsha'). rewrite Hname in Hsha'.
        eauto.
      * exists sha. now rewrite (Hframe _ Hl).
    + intros key Hkey'. rewrite Hframe by tauto. apply Hother.
      intros ->. apply Hkey'. now left.
Qed.

(** X21. The loop of [_configureBowerWorkspace] leaves, for every
    repository of the workspace, the dependency named after the repository
    at its local clone, ["./name#sha"], and leaves every dependency with
    another name as [mergedBowerConfigsFromRepos] gave it. *)
Theorem workspace_dependencies_point_to_clones
  (repos : list (Object WorkspaceRepo)) (config config' : BowerConfig E)
  (st st' : State E) :
  point_to_clones repos config st = (Returns config', st') ->
  (forall repo, In repo repos ->
     exists sha,
       get_dependency config' (repo_name (github (val repo)))
       = Some ("./" +:+ repo_name (github (val repo)) +:+ "#" +:+ sha))
  /\ (forall key,
        ~ In key (map (fun repo => repo_name (github (val repo))) repos) ->
        get_dependency config' key = get_dependency config key).
Proof. apply point_to_clones_spec. Qed.

End Dependencies.

Lemma demo_dependency_laws : dependency_laws Demo.env demo_dependency.
Proof.
  intros config config' key value [= <-]. simpl.
  rewrite String.eqb_refl. split; [reflexivity|].
  intros other Hne. destruct (String.eqb_spec key other); congruence.
Qed.

Lemma workspace_dependencies_point_to_clones_witness :
  exists sha,
    demo_dependency
      (Demo.returned
         (point_to_clones (E:=Demo.env) (Demo.returned Demo.first_init)
            [("a", "org/a#^1.0.0"); ("paper", "org/paper#^2.0.0")]
            (snd Demo.first_init)))
      "a"
    = Some ("./" +:+ "a" +:+ "#" +:+ sha).
Proof.
  apply (proj1 (workspace_dependencies_point_to_clones (E:=Demo.env)
                  demo_dependency demo_dependency_laws
                  (Demo.returned Demo.first_init)
                  [("a", "org/a#^1.0.0"); ("paper", "org/paper#^2.0.0")]
                  _ (snd Demo.first_init) (snd Demo.first_init)
                  ltac:(vm_compute; reflexivity))
           (Demo.workspace_repo "a" 2)).
  vm_compute. now left.
Defined.

(** ** The earlier Workspace class *)

Section LegacyFacts.
Context {E : Env}.
Variable child_process_exec :
  string -> Legacy.ExecOptions -> World E -> (Exn + string * string) * World E.
Variable trim : string -> string.
Variable process_cwd : World E -> string.
Variable get_dependency : BowerConfig E -> string -> option string.
Variable merged :
  list Legacy.WorkspaceRepo -> World E -> (Exn + BowerConfig E) * World E.
Hypothesis laws : dependency_laws E get_dependency.

Lemma legacy_point_to_clones_spec (repos : list Legacy.WorkspaceRepo)
  (config config' : BowerConfig E) (st st' : State E) :
  Legacy.point_to_clones child_process_exec trim repos config st
  = (Returns config', st') ->
  (forall repo, In repo repos ->
     exists sha,
       get_dependency config' (repo_name (Legacy.github repo))
       = Some ("./" +:+ repo_name (Legacy.github repo) +:+ "#" +:+ sha))
  /\ (forall key,
        ~ In key (map (fun repo => repo_name (Legacy.github repo)) repos) ->
        get_dependency config' key = get_dependency config key)
  /\ (forall key, is_Some (get_dependency config key) ->
                  is_Some (get_dependency config' key)).
Proof.
  revert config st. induction repos as [|r l IH]; intros config st; simpl.
  - intros [= <- _]. split; [intros repo []|]. split; auto.
  - intros H. apply bind_inv in H as (sha & s1 & _ & H).
    apply bind_inv in H as (config1 & s2 & Hset & H).
    destruct (set_dependency E config (repo_name (Legacy.github r))
                ("./" +:+ repo_name (Legacy.github r) +:+ "#" +:+ sha))
      as [e|c1] eqn:Hs; [discriminate|].
    injection Hset as <- _.
    destruct (laws _ _ _ _ Hs) as (Hkey & Hother).
    destruct (IH _ _ H) as (Hpins & Hframe & Hsome). split; [|split].
    + intros repo [<-|Hin]; [|now apply Hpins].
      destruct (in_dec string_dec (repo_name (Legacy.github r))
                  (map (fun repo => repo_name (Legacy.github repo)) l))
        as [Hl|Hl].
      * apply in_map_iff in Hl as (r' & Hname & Hr').
        destruct (Hpins r' Hr') as (sha' & Hsha'). rewrite Hname in Hsha'.
        eauto.
      * exists sha. now rewrite (Hframe _ Hl).
    + intros key Hkey'. rewrite Hframe by tauto. apply Hother.
      intros ->. apply Hkey'. now left.
    + intros key Hk. apply Hsome.
      destruct (string_dec key (repo_name (Legacy.github r))) as [->|Hne].
      * rewrite Hkey. eauto.
      * now rewrite (Hother _ Hne).
Qed.

(** X22. The configuration that the earlier [_installWorkspaceDependencies]
    writes has a dependency named [web-component-tester], and has, for
    every repository of the workspace, the dependency named after the
    repository at its local clone, ["./name#sha"]. *)
Theorem legacy_bower_config_pins (repos : list Legacy.WorkspaceRepo)
  (config : BowerConfig E) (st st' : State E) :
  Legacy.bower_config child_process_exec trim get_dependency merged repos st
  = (Returns config, st') ->
  is_Some (get_dependency config "web-component-tester")
  /\ forall repo, In repo repos ->
       exists sha,
         get_dependency config (repo_name (Legacy.github repo))
         = Some ("./" +:+ repo_name (Legacy.github repo) +:+ "#" +:+ sha).
Proof.
  unfold Legacy.bower_config. intros H.
  apply bind_inv in H as (c0 & s0 & _ & H).
  apply bind_inv in H as (c1 & s1 & Hwct & H).
  destruct (legacy_point_to_clones_spec _ _ _ _ _ H) as (Hpins & _ & Hsome).
  split; [|exact Hpins]. apply Hsome.
  destruct (JS.or_undefined (get_dependency c0 "web-component-tester"))
    as [v|] eqn:Hget.
  - injection Hwct as <- _.
    destruct (get_dependency c0 "web-component-tester") as [[|a s]|];
      simpl in Hget; try discriminate. eauto.
  - destruct (set_dependency E c0 "web-component-tester" EmptyString)
      as [e|c] eqn:Hs; [discriminate|].
    injection Hwct as <- _. rewrite (proj1 (laws _ _ _ _ Hs)). eauto.
Qed.

Lemma for_each_app {A B : Type} (f : A -> M E B) (l1 l2 : list A)
  (st : State E) :
  for_each f (l1 ++ l2) st
  = bind (for_each f l1)
      (fun ys1 => ys2 <- for_each f l2 ;; ret (ys1 ++ ys2)%list) st.
Proof.
  revert st. induction l1 as [|x l1 IH]; intros st; simpl.
  - unfold bind at 1. simpl. unfold bind.
    destruct (for_each f l2 st) as [[ys|e|] s]; reflexivity.
  - rewrite bind_bind. unfold bind at 1 3.
    destruct (f x st) as [[y|e|] s1]; [|reflexivity|reflexivity].
    rewrite bind_bind. unfold bind at 1 3. rewrite IH. unfold bind.
    destruct (for_each f l1 s1) as [[ys1|e|] s2]; [|reflexivity|reflexivity].
    simpl. destruct (for_each f l2 s2) as [[ys2|e|] s3]; reflexivity.
Qed.

(** X23. The earlier [_cloneOrUpdateWorkspaceRepos] takes the repositories
    one after the other and stops at the first one that fails: it throws
    what that one threw, in the state that one left, and the repositories
    after it are not touched. *)
Theorem legacy_clone_stops_at_first_failure
  (l1 l2 : list Legacy.WorkspaceRepo) (repo : Legacy.WorkspaceRepo)
  (done : list unit) (e : Exn) (st st1 st2 : State E) :
  for_each (Legacy.cloneOrUpdate child_process_exec trim process_cwd) l1 st
  = (Returns done, st1) ->
  Legacy.cloneOrUpdate child_process_exec trim process_cwd repo st1
  = (Throws e, st2) ->
  Legacy._cloneOrUpdateWorkspaceRepos child_process_exec trim process_cwd
    (l1 ++ repo :: l2) st
  = (Throws e, st2).
Proof.
  intros H1 Hrepo. unfold Legacy._cloneOrUpdateWorkspaceRepos.
  unfold bind at 1. rewrite for_each_app.
  rewrite (bind_returns _ _ _ _ _ H1). simpl for_each.
  unfold bind. rewrite Hrepo. reflexivity.
Qed.

End LegacyFacts.

Lemma legacy_bower_config_pins_witness :
  is_Some (demo_dependency
             (Demo.returned
                (Legacy.bower_config (E:=Demo.env)
                   LegacyDemo.child_process_exec LegacyDemo.trim
                   demo_dependency LegacyDemo.merged
                   [LegacyDemo.repo "a"] Demo.start))
             "web-component-tester")
  /\ exists sha,
       demo_dependency
         (Demo.returned
            (Legacy.bower_config (E:=Demo.env)
               LegacyDemo.child_process_exec LegacyDemo.trim
               demo_dependency LegacyDemo.merged
               [LegacyDemo.repo "a"] Demo.start))
         "a"
       = Some ("./" +:+ "a" +:+ "#" +:+ sha).
Proof.
  destruct (legacy_bower_config_pins (E:=Demo.env)
              LegacyDemo.child_process_exec LegacyDemo.trim
              demo_dependency LegacyDemo.merged demo_dependency_laws
              [LegacyDemo.repo "a"] _ Demo.start Demo.start
              ltac:(vm_compute; reflexivity)) as (Hwct & Hpins).
  split; [exact Hwct | apply (Hpins (LegacyDemo.repo "a")); now left].
Defined.

Lemma legacy_clone_stops_at_first_failure_witness :
  Legacy._cloneOrUpdateWorkspaceRepos (E:=Demo2.env "none")
    LegacyDemo.child_process_exec LegacyDemo.trim LegacyDemo.process_cwd
    ([LegacyDemo.repo "a"] ++ LegacyDemo.repo "b" :: [LegacyDemo.repo "c"])
    (Demo2.start "none")
  = (Throws (Error "Command failed: git fetch "), Demo2.start "none").
Proof.
  apply (legacy_clone_stops_at_first_failure (E:=Demo2.env "none")
           LegacyDemo.child_process_exec LegacyDemo.trim
           LegacyDemo.process_cwd [LegacyDemo.repo "a"] [LegacyDemo.repo "c"]
           (LegacyDemo.repo "b") [tt] (Error "Command failed: git fetch ")
           (Demo2.start "none") (Demo2.start "none") (Demo2.start "none"));
    vm_compute; reflexivity.
Defined.

(** ** Compositions *)

Section Compositions.
Context {E : Env}.

(** X24. Once [getRepoInfo] has returned for a reference, every later
    call for the same fullName, with any ref, is answered from the cache:
    it returns the same metadata, with the ref of the later reference or
    the default branch, and makes no request. *)
Theorem resolved_once_then_cached (st st1 : State E)
  (r later : GitHubRepoReference) (repo : GitHubRepo) :
  getRepoInfo r st = (Returns repo, st1) ->
  ref_fullName later = ref_fullName r ->
  getRepoInfo later st1
  = (Returns {| repo_owner := repo_owner repo;
                repo_name := repo_name repo;
                repo_fullName := repo_fullName repo;
                repo_cloneUrl := repo_cloneUrl repo;
                repo_defaultBranch := repo_defaultBranch repo;
                repo_ref := JS.or_else (ref_ref later)
                              (repo_defaultBranch repo) |},
     st1).
Proof.
  intros H Hname. destruct (getRepoInfo_caches _ _ _ _ H) as (c & Hc & ->).
  rewrite (getRepoInfo_hit st1 later c) by (now rewrite Hname).
  reflexivity.
Qed.

(** X25. After [init] has returned, [run] does not throw: it applies [fn]
    to each of the repositories that [init] returned, in order, and
    returns those on which [fn] returned and, for the others, what [fn]
    threw; it changes nothing but the world. *)
Theorem run_after_init_partitions (this_dir : string) (fuel : nat)
  (patterns : Patterns) (options : WorkspaceInitOptions) (st st' : State E)
  (repos : list (Object WorkspaceRepo))
  (fn : Object WorkspaceRepo -> World E -> (Exn + unit) * World E) :
  init this_dir fuel patterns options st = (Returns repos, st') ->
  run fn st'
  = (Returns (succeeded (fst (run_outcomes fn repos (world st'))),
              failed (fst (run_outcomes fn repos (world st')))),
     in_world (snd (run_outcomes fn repos (world st'))) st')
  /\ map fst (fst (run_outcomes fn repos (world st'))) = repos.
Proof.
  intros H. split; [|apply run_outcomes_repos]. unfold run.
  pose proof (init_recorded this_dir fuel patterns options st) as R.
  rewrite H in R. simpl in R. rewrite R.
  rewrite run_loop_spec;
    [reflexivity | eapply init_returns_distinct; eassumption | intros r _ []].
Qed.

Lemma filter_no_excludes (refs : list GitHubRepoReference) :
  List.filter
    (fun repoRef : GitHubRepoReference =>
       negb (JS.Array_includes [] (JS.toLowerCase (ref_fullName repoRef))))
    refs
  = refs.
Proof. induction refs as [|r l IH]; simpl; [reflexivity|]. f_equal. exact IH. Qed.

(** X26. One pattern without wildcard that parses, for a repository that
    is not cached and that the API knows (and has not moved): the target
    resolution returns that one repository, with the metadata of the API
    and, as ref, the ref of the pattern, or the default branch when the
    pattern has none; it makes this one request and caches the metadata
    under the fullName of the pattern. *)
Theorem direct_pattern_target (fuel : nat) (p : string)
  (reference : GitHubRepoReference) (response : ApiResponse)
  (st : State E) (w : World E) :
  is_direct p = true ->
  fullNameToGithubRepoReference p = inr reference ->
  _cache st !! ref_fullName reference = None ->
  repos_get E (ref_owner reference) (ref_name reference) (world st)
  = (inr response, w) ->
  isRedirect response = false ->
  _determineGitHubRepos fuel [p] None st
  = (Returns [assign_ref (formatGitHubRepoFromApi (data response))
                (JS.or_else (ref_ref reference)
                   (api_default_branch (data response)))],
     stored (ref_fullName reference) (formatGitHubRepoFromApi (data response))
       (answered (ReposGet (ref_owner reference) (ref_name reference)) w
          (grown 1 st))).
Proof.
  intros Hd Hp Hmiss Hget Hred.
  assert (Hexp : expandRepoPatterns fuel [p] st
                 = (Returns [reference], grown 1 st)).
  { unfold expandRepoPatterns. simpl expand_loop.
    unfold is_direct in Hd. apply andb_true_iff in Hd as [Hs Hx].
    apply negb_true_iff in Hx. rewrite Hs, Hx, Hp. simpl.
    rewrite (bind_returns (bind (ret reference) _) _ st (grown 1 st)
               ([mkObject (next_addr st) reference], [])).
    - reflexivity.
    - unfold bind. simpl. unfold grown. now rewrite Nat.add_1_r. }
  assert (Hagain : fullNameToGithubRepoReference (ref_fullName reference)
                   = inr (mkReference (ref_owner reference)
                            (ref_name reference) (ref_fullName reference)
                            None)).
  { destruct (parse_inv p reference Hp) as (Ho & Hoh & Hn & Hnh & Hf & _).
    rewrite Hf. now apply parse_owner_name. }
  unfold _determineGitHubRepos. simpl.
  rewrite (bind_returns (ret []) _ st st [] eq_refl).
  rewrite (bind_returns _ _ _ _ _ Hexp), filter_no_excludes.
  assert (Hres : resolve_all [reference] (grown 1 st)
                 = (Returns [inl (assign_ref
                                    (formatGitHubRepoFromApi (data response))
                                    (JS.or_else (ref_ref reference)
                                       (api_default_branch (data response))))],
                    stored (ref_fullName reference)
                      (formatGitHubRepoFromApi (data response))
                      (answered (ReposGet (ref_owner reference)
                                   (ref_name reference)) w (grown 1 st)))).
  { unfold resolve_all. simpl.
    unfold try_getRepoInfo, try_catch, bind.
    change (getRepoInfo_in (_cache st) reference (grown 1 st))
      with (getRepoInfo reference (grown 1 st)).
    rewrite (getRepoInfo_miss (grown 1 st) reference _ Hmiss Hagain).
    simpl. rewrite Hget, Hred. reflexivity. }
  rewrite (bind_returns _ _ _ _ _ Hres).
  rewrite report_and_filter_spec. simpl. now rewrite logged_nil.
Qed.

End Compositions.

Lemma resolved_once_then_cached_witness :
  getRepoInfo (mkReference "org" "a" "org/a" (Some "v2"))
    (snd (getRepoInfo (mkReference "org" "a" "org/a" None) Demo.start))
  = (Returns (mkRepo "org" "a" "org/a" "https://github.com/org/a.git"
                "master" "v2"),
     snd (getRepoInfo (mkReference "org" "a" "org/a" None) Demo.start)).
Proof.
  apply (resolved_once_then_cached Demo.start
           (snd (getRepoInfo (mkReference "org" "a" "org/a" None) Demo.start))
           (mkReference "org" "a" "org/a" None)
           (mkReference "org" "a" "org/a" (Some "v2"))
           (mkRepo "org" "a" "org/a" "https://github.com/org/a.git"
              "master" "master"));
    [vm_compute; reflexivity | reflexivity].
Defined.

Lemma run_after_init_partitions_witness :
  fst (run Demo.tests (snd Demo.first_init))
  = Returns (succeeded
               (fst (run_outcomes Demo.tests (Demo.returned Demo.first_init)
                       tt)),
             failed
               (fst (run_outcomes Demo.tests (Demo.returned Demo.first_init)
                       tt))).
Proof.
  rewrite (proj1 (run_after_init_partitions ".workspace" 5
                    (mkPatterns ["org/*"] None) Demo.options Demo.start
                    (snd Demo.first_init) (Demo.returned Demo.first_init)
                    Demo.tests ltac:(vm_compute; reflexivity))).
  reflexivity.
Defined.

Lemma direct_pattern_target_witness :
  fst (_determineGitHubRepos 5 ["org/a#v2"] None Demo.start)
  = Returns [mkRepo "org" "a" "org/a" "https://github.com/org/a.git"
               "master" "v2"].
Proof.
  rewrite (direct_pattern_target 5 "org/a#v2"
             (mkReference "org" "a" "org/a" (Some "v2"))
             (mkResponse None Demo.a) Demo.start tt);
    reflexivity.
Defined.
